(** * gloss-translation: the Prisma schema, the REST client and the login view

    The development has three parts, following the repository:

    - [Prisma]: the schema language of [schema.prisma] (models, fields,
      attributes), with the meaning that Prisma and the database give to a
      schema: validation of the data, primary keys and unique constraints and
      foreign keys on [create], referential actions on [delete].  [Schema]
      transcribes the repository's schema, model by model, as a value of that
      language; what is proved of tables is proved of that value.
    - [Js], [Http], [Auth], [Languages]: the api-client classes, as programs
      in a small promise monad that records every HTTP request.
    - [LoginView]: the submit handler of the login form.  *)

Set Warnings "-register-all".
From Stdlib Require Import ZArith.
From stdpp Require Import base option list strings gmap fin_maps infinite.

Open Scope string_scope.
Open Scope list_scope.

(** ** Results of database operations *)

Inductive Error :=
| ValidationError
| UniqueConstraintViolation
| ForeignKeyViolation
| RecordNotFound
| DepthExceeded.

Inductive result (A : Type) :=
| Ok (a : A)
| Err (e : Error).
Arguments Ok {A} a.
Arguments Err {A} e.

#[global] Instance Error_eq_dec : EqDecision Error.
Proof. solve_decision. Defined.
#[global] Instance result_eq_dec `{EqDecision A} : EqDecision (result A).
Proof. solve_decision. Defined.

#[global] Instance result_ret : MRet result := @Ok.
#[global] Instance result_bind : MBind result :=
  λ A B f m, match m with Ok a => f a | Err e => Err e end.

Definition require (b : bool) (e : Error) : result unit :=
  if b then Ok () else Err e.

Definition of_option {A} (o : option A) (e : Error) : result A :=
  match o with Some a => Ok a | None => Err e end.

Module Prisma.

(** *** The schema language *)

Inductive Value :=
| VNull
| VString (s : string)
| VInt (n : Z)
| VBoolean (b : bool)
| VDateTime (t : Z)
| VEnum (c : string)
| VStringList (l : list string).

#[global] Instance Value_eq_dec : EqDecision Value.
Proof. solve_decision. Defined.

(** [SetDefault] is not used by the schema, neither written nor as the
    default of a relation, and is left out. *)
Inductive ReferentialAction := Cascade | Restrict | NoAction | SetNull.

Inductive DefaultValue :=
| Literal (v : Value)
| DbGenerated (sql : string)
| Now.

Inductive FieldType :=
| TString | TInt | TBigInt | TBoolean | TDateTime
| TNamed (n : string).          (* an enum or a model *)

#[global] Instance FieldType_eq_dec : EqDecision FieldType.
Proof. solve_decision. Defined.

(** [T], [T?] and [T[]]. *)
Inductive Modifier := Required | Optional | List.

Inductive Attribute :=
| AtId
| AtUnique
| AtDefault (d : DefaultValue)
| AtDbUuid
| AtRelation (fields references : list string)
             (onDelete : option ReferentialAction).

Record Field := mkField {
  fieldName : string;
  fieldType : FieldType;
  modifier : Modifier;
  attributes : list Attribute;
}.

Inductive BlockAttribute :=
| BlockId (fs : list string)
| BlockUnique (fs : list string)
| BlockIndex (fs : list string)
| BlockMap (table : string).

Record Model := mkModel {
  modelName : string;
  fields : list Field;
  blockAttributes : list BlockAttribute;
}.

Record Enum := mkEnum {
  enumName : string;
  enumValues : list string;
}.

Record Schema := mkSchema {
  enums : list Enum;
  models : list Model;
}.

(** *** Reading a schema *)

Definition findModel (s : Schema) (n : string) : option Model :=
  List.find (λ m, bool_decide (modelName m = n)) (models s).

Definition findEnum (s : Schema) (n : string) : option Enum :=
  List.find (λ e, bool_decide (enumName e = n)) (enums s).

(** A field whose type is a model is a relation field: it is no column. *)
Definition isScalar (s : Schema) (f : Field) : bool :=
  match fieldType f with
  | TNamed n => negb (bool_decide (is_Some (findModel s n)))
  | _ => true
  end.

Definition scalarFields (s : Schema) (m : Model) : list Field :=
  List.filter (isScalar s) (fields m).

Definition isId (a : Attribute) : bool :=
  match a with AtId => true | _ => false end.
Definition isUnique (a : Attribute) : bool :=
  match a with AtUnique => true | _ => false end.

Definition blockId (m : Model) : option (list string) :=
  head (omap (λ a, match a with BlockId fs => Some fs | _ => None end)
             (blockAttributes m)).

(** The primary key: [@@id([...])] of the model, else its [@id] field. *)
Definition primaryKey (m : Model) : list string :=
  match blockId m with
  | Some fs => fs
  | None => fieldName <$> List.filter (λ f, existsb isId (attributes f)) (fields m)
  end.

(** Every key that the database keeps unique: the primary key, the
    [@unique] fields and the [@@unique([...])] groups. *)
Definition uniqueKeys (m : Model) : list (list string) :=
  primaryKey m
    :: ((λ f, [fieldName f]) <$>
          List.filter (λ f, existsb isUnique (attributes f)) (fields m))
    ++ omap (λ a, match a with BlockUnique fs => Some fs | _ => None end)
            (blockAttributes m).

Definition fieldDefault (f : Field) : option DefaultValue :=
  head (omap (λ a, match a with AtDefault d => Some d | _ => None end)
             (attributes f)).

Record ForeignKey := mkForeignKey {
  fkChild : string;
  fkFields : list string;
  fkParent : string;
  fkReferences : list string;
  fkOnDelete : ReferentialAction;
}.

(** A relation that names no [onDelete] gets Prisma's default: [SetNull] when
    the relation is optional, [Restrict] when it is required. *)
Definition defaultOnDelete (md : Modifier) : ReferentialAction :=
  match md with
  | Optional => SetNull
  | _ => Restrict
  end.

Definition foreignKeyOf (m : Model) (f : Field) : option ForeignKey :=
  match fieldType f with
  | TNamed parent =>
      head (omap (λ a,
              match a with
              | AtRelation fs refs od =>
                  Some (mkForeignKey (modelName m) fs parent refs
                          (default (defaultOnDelete (modifier f)) od))
              | _ => None
              end) (attributes f))
  | _ => None
  end.

Definition foreignKeys (m : Model) : list ForeignKey :=
  omap (foreignKeyOf m) (fields m).

(** The foreign keys of the whole schema that point to [parent]. *)
Definition referencing (s : Schema) (parent : string) : list ForeignKey :=
  List.filter (λ fk, bool_decide (fkParent fk = parent))
              (concat (foreignKeys <$> models s)).

(** *** Rows and tables *)

Abbreviation Row := (gmap string Value).
Abbreviation Database := (gmap string (list Row)).

Definition rows (n : string) (db : Database) : list Row :=
  default [] (db !! n).

Definition column (r : Row) (f : string) : Value :=
  default VNull (r !! f).

Definition project (fs : list string) (r : Row) : list Value :=
  column r <$> fs.

(** What the database computes itself: [generate_ulid()] and [now()]. *)
Record DbEnv := mkDbEnv {
  generated : string → string;
  clock : Z;
}.

Definition evalDefault (env : DbEnv) (d : DefaultValue) : Value :=
  match d with
  | Literal v => v
  | DbGenerated sql => VString (generated env sql)
  | Now => VDateTime (clock env)
  end.

(** The value fits the type and the modifier of the column.  The text of a
    [@db.Uuid] column and the width of an integer are not looked at here;
    [canonical] below says what the database asks of them. *)
Definition wellTyped (s : Schema) (f : Field) (v : Value) : bool :=
  match v, modifier f with
  | VNull, Optional => true
  | VNull, _ => false
  | VStringList _, List => bool_decide (fieldType f = TString)
  | VStringList _, _ => false
  | _, List => false
  | VString _, _ => bool_decide (fieldType f = TString)
  | VInt _, _ =>
      bool_decide (fieldType f = TInt) || bool_decide (fieldType f = TBigInt)
  | VBoolean _, _ => bool_decide (fieldType f = TBoolean)
  | VDateTime _, _ => bool_decide (fieldType f = TDateTime)
  | VEnum c, _ =>
      match fieldType f with
      | TNamed n =>
          match findEnum s n with
          | Some e => bool_decide (c ∈ enumValues e)
          | None => false
          end
      | _ => false
      end
  end.

(** *** Values as the database keeps them *)








(** The value stored in column [f] of a new row: the one given, else the
    column's default, else null (an empty list for [T[]]); a required
    column with neither is an error. *)
Definition fieldValue (s : Schema) (env : DbEnv) (data : Row) (f : Field)
  : result Value :=
  match data !! fieldName f with
  | Some v => if wellTyped s f v then Ok v else Err ValidationError
  | None =>
      match fieldDefault f with
      | Some d => Ok (evalDefault env d)
      | None =>
          match modifier f with
          | Optional => Ok VNull
          | List => Ok (VStringList [])
          | Required => Err ValidationError
          end
      end
  end.

Fixpoint complete (s : Schema) (env : DbEnv) (data : Row) (fs : list Field)
  : result Row :=
  match fs with
  | [] => Ok ∅
  | f :: fs =>
      v ← fieldValue s env data f;
      r ← complete s env data fs;
      Ok (<[fieldName f := v]> r)
  end.

Definition knownColumns (s : Schema) (m : Model) (data : Row) : bool :=
  bool_decide (dom data ⊆ list_to_set (fieldName <$> scalarFields s m)).

(** Every key column is required.  This holds of the schema, so the rule of
    SQL that null never collides with null plays no part in [violatesUnique]
    below. *)
Definition keysRequired (s : Schema) : bool :=
  forallb (λ m,
    forallb (λ key,
      forallb (λ name,
        existsb (λ f, bool_decide (fieldName f = name)
                      && match modifier f with Required => true | _ => false end)
                (scalarFields s m)) key)
      (uniqueKeys m)) (models s).

Definition sameKey (key : list string) (r r' : Row) : bool :=
  bool_decide (project key r = project key r').

Definition violatesUnique (m : Model) (new : Row) (table : list Row) : bool :=
  existsb (λ key, existsb (sameKey key new) table) (uniqueKeys m).

(** A foreign key with a null column is not checked. *)
Definition fkSatisfied (db : Database) (new : Row) (fk : ForeignKey) : bool :=
  bool_decide (VNull ∈ project (fkFields fk) new)
  || existsb (λ p, bool_decide (project (fkReferences fk) p
                                = project (fkFields fk) new))
             (rows (fkParent fk) db).

(** *** [create] *)

(** The client checks the data against the model before anything is sent
    to the database. *)
Definition validate (s : Schema) (env : DbEnv) (m : Model) (data : Row)
  : result Row :=
  _ ← require (knownColumns s m data) ValidationError;
  complete s env data (scalarFields s m).

Definition create (s : Schema) (env : DbEnv) (n : string) (data : Row)
    (db : Database) : result Database :=
  m ← of_option (findModel s n) ValidationError;
  row ← validate s env m data;
  _ ← require (negb (violatesUnique m row (rows n db))) UniqueConstraintViolation;
  _ ← require (forallb (fkSatisfied db row) (foreignKeys m)) ForeignKeyViolation;
  Ok (<[n := rows n db ++ [row]]> db).

(** A column that the model requires and gives no default for: the caller
    has to pass it. *)
Definition mustBeGiven (s : Schema) (m : Model) (name : string) : bool :=
  existsb (λ f, bool_decide (fieldName f = name)
                && bool_decide (fieldDefault f = None)
                && match modifier f with Required => true | _ => false end)
          (scalarFields s m).

(** *** [delete] and the referential actions *)

(** Row [r] of the child table points to one of the [victims]. *)
Definition refersTo (fk : ForeignKey) (victims : list Row) (r : Row) : bool :=
  negb (bool_decide (VNull ∈ project (fkFields fk) r))
  && existsb (λ v, bool_decide (project (fkReferences fk) v
                                = project (fkFields fk) r)) victims.

Definition removeRows (victims table : list Row) : list Row :=
  List.filter (λ r, negb (bool_decide (r ∈ victims))) table.

Definition setNull (fs : list string) (r : Row) : Row :=
  foldr (λ f r, <[f := VNull]> r) r fs.

Definition nullify (fk : ForeignKey) (victims : list Row) (r : Row) : Row :=
  if refersTo fk victims r then setNull (fkFields fk) r else r.

(** What foreign key [fk] does to its table when [victims] are deleted from
    the table it points to; [cascade] deletes rows of the child table. *)
Definition onDelete (cascade : string → list Row → Database → result Database)
    (victims : list Row) (db : Database) (fk : ForeignKey) : result Database :=
  let child := rows (fkChild fk) db in
  match List.filter (refersTo fk victims) child with
  | [] => Ok db
  | dependents =>
      match fkOnDelete fk with
      | Cascade => cascade (fkChild fk) dependents db
      | SetNull => Ok (<[fkChild fk := nullify fk victims <$> child]> db)
      | Restrict | NoAction => Err ForeignKeyViolation
      end
  end.

(** Deleting [victims] from table [parent]: the rows go, then every foreign
    key that points to [parent] acts on its dependent rows.  A cascade
    deletes them in turn, which is the recursion; [fuel] bounds its depth. *)
Fixpoint deleteRows (s : Schema) (fuel : nat) (parent : string)
    (victims : list Row) (db : Database) : result Database :=
  match fuel with
  | O => Err DepthExceeded
  | S fuel =>
      foldl (λ acc fk, db ← acc; onDelete (deleteRows s fuel) victims db fk)
            (Ok (<[parent := removeRows victims (rows parent db)]> db))
            (referencing s parent)
  end.

(** The child table of [fk] once the [victims] are gone from the table it
    points to, and whether [fk] forbids that they go. *)
Definition afterDelete (fk : ForeignKey) (victims table : list Row) : list Row :=
  match fkOnDelete fk with
  | Cascade => List.filter (λ r, negb (refersTo fk victims r)) table
  | SetNull => nullify fk victims <$> table
  | Restrict | NoAction => table
  end.

Definition blocks (fk : ForeignKey) (victims table : list Row) : bool :=
  match fkOnDelete fk with
  | Restrict | NoAction => existsb (refersTo fk victims) table
  | Cascade | SetNull => false
  end.

(** [delete] by primary key.  The key is matched against the stored rows as
    it is given; it is meant to be a [validKey]. *)
Definition delete (s : Schema) (n : string) (key : list Value)
    (db : Database) : result Database :=
  m ← of_option (findModel s n) ValidationError;
  match List.filter (λ r, bool_decide (project (primaryKey m) r = key))
                    (rows n db) with
  | [] => Err RecordNotFound
  | victims => deleteRows s (S (length (models s))) n victims db
  end.

(** Cascades from [parent] go at most [k] tables deep. *)
Fixpoint cascadeWithin (s : Schema) (k : nat) (parent : string) : bool :=
  match k with
  | O =>
      forallb (λ fk, match fkOnDelete fk with Cascade => false | _ => true end)
              (referencing s parent)
  | S k =>
      forallb (λ fk, match fkOnDelete fk with
                     | Cascade => cascadeWithin s k (fkChild fk)
                     | _ => true
                     end)
              (referencing s parent)
  end.

(** [SetNull] is only declared on columns outside every key of the child
    table, as the database demands. *)
Definition setNullSafe (s : Schema) : bool :=
  forallb (λ m,
    forallb (λ fk,
      match fkOnDelete fk, findModel s (fkChild fk) with
      | SetNull, Some child =>
          forallb (λ key,
            forallb (λ f, negb (bool_decide (f ∈ key))) (fkFields fk))
            (uniqueKeys child)
      | _, _ => true
      end) (foreignKeys m)) (models s).

(** Every foreign key of every row points to a row that is there. *)
Definition refIntegrity (s : Schema) (db : Database) : Prop :=
  ∀ n m r, findModel s n = Some m → r ∈ rows n db →
    forallb (fkSatisfied db r) (foreignKeys m) = true.

(** Every foreign key that points to [parent] forbids its delete, and none of
    them is a key of [parent] itself. *)
Definition restricts (s : Schema) (parent : string) : bool :=
  forallb (λ fk,
             match fkOnDelete fk with
             | Restrict | NoAction => negb (bool_decide (fkChild fk = parent))
             | Cascade | SetNull => false
             end)
          (referencing s parent).

(** The tables that point to [parent] are different tables, none is [parent],
    nothing points to them, and each points with at least one column. *)
Definition leafChildren (s : Schema) (parent : string) : bool :=
  bool_decide (NoDup (fkChild <$> referencing s parent))
  && bool_decide (parent ∉ fkChild <$> referencing s parent)
  && forallb (λ fk, match referencing s (fkChild fk), fkFields fk with
                    | [], _ :: _ => true
                    | _, _ => false
                    end)
             (referencing s parent).

(** Every foreign key points to a model of the schema, by a key of that
    model, and the models have different names. *)
Definition wellFormed (s : Schema) : bool :=
  bool_decide (NoDup (modelName <$> models s))
  && forallb (λ m,
       forallb (λ fk,
         match findModel s (fkParent fk) with
         | Some parent => bool_decide (fkReferences fk ∈ uniqueKeys parent)
         | None => false
         end) (foreignKeys m)) (models s).

(** *** Histories *)

Inductive Op :=
| Create (env : DbEnv) (model : string) (data : Row)
| Delete (model : string) (key : list Value).

Definition step (s : Schema) (db : Database) (op : Op) : result Database :=
  match op with
  | Create env n data => create s env n data db
  | Delete n key => delete s n key db
  end.

Fixpoint run (s : Schema) (ops : list Op) (db : Database) : result Database :=
  match ops with
  | [] => Ok db
  | op :: ops => db ← step s db op; run s ops db
  end.

(** The databases that exist: those some history builds from the empty one. *)
Definition reachable (s : Schema) (db : Database) : Prop :=
  ∃ ops, run s ops ∅ = Ok db.

(** [db'] has, key by key, no more than [db]. *)
Definition shrinks (s : Schema) (db db' : Database) : Prop :=
  ∀ n m key, findModel s n = Some m → key ∈ uniqueKeys m →
    (project key <$> rows n db') `sublist_of` (project key <$> rows n db).

(** No two rows of a table agree on a key of its model. *)
Definition keysUnique (s : Schema) (db : Database) : Prop :=
  ∀ n m key, findModel s n = Some m → key ∈ uniqueKeys m →
    NoDup (project key <$> rows n db).

End Prisma.

(** ** The repository's schema *)

Module Schema.
Import Prisma.

Definition ulid : Attribute := AtDefault (DbGenerated "generate_ulid()").
Definition enumDefault (c : string) : Attribute := AtDefault (Literal (VEnum c)).
Definition relation (fs refs : list string) : Attribute := AtRelation fs refs None.
Definition relationCascade (fs refs : list string) : Attribute :=
  AtRelation fs refs (Some Cascade).

Definition EmailStatus : Enum :=
  mkEnum "EmailStatus" ["UNVERIFIED"; "VERIFIED"; "BOUNCED"; "COMPLAINED"].
Definition SystemRole : Enum := mkEnum "SystemRole" ["ADMIN"].
Definition TextDirection : Enum := mkEnum "TextDirection" ["ltr"; "rtl"].
Definition LanguageRole : Enum :=
  mkEnum "LanguageRole" ["ADMIN"; "TRANSLATOR"; "VIEWER"].
Definition GlossState : Enum := mkEnum "GlossState" ["APPROVED"; "UNAPPROVED"].
Definition GlossSource : Enum := mkEnum "GlossSource" ["USER"; "IMPORT"].
Definition ResourceCode : Enum := mkEnum "ResourceCode" ["BDB"; "LSJ"; "STRONGS"].

Definition AuthUser : Model :=
  mkModel "AuthUser"
    [ mkField "id" TString Required [AtId; ulid; AtDbUuid];
      mkField "name" TString Optional [];
      mkField "emailStatus" (TNamed "EmailStatus") Required [enumDefault "UNVERIFIED"];
      mkField "systemRoles" (TNamed "UserSystemRole") List [];
      mkField "auth_session" (TNamed "AuthSession") List [];
      mkField "auth_key" (TNamed "AuthKey") List [];
      mkField "importJobs" (TNamed "LanguageImportJob") List [];
      mkField "languageRoles" (TNamed "LanguageMemberRole") List [];
      mkField "emailVerifications" (TNamed "UserEmailVerification") List [];
      mkField "glossHistory" (TNamed "GlossHistoryEntry") List [];
      mkField "translatorNotes" (TNamed "TranslatorNote") List [];
      mkField "footnotes" (TNamed "Footnote") List [] ]
    [ BlockMap "User" ].

Definition AuthSession : Model :=
  mkModel "AuthSession"
    [ mkField "id" TString Required [AtId; AtUnique];
      mkField "user_id" TString Required [AtDbUuid];
      mkField "active_expires" TBigInt Required [];
      mkField "idle_expires" TBigInt Required [];
      mkField "auth_user" (TNamed "AuthUser") Required
        [relationCascade ["user_id"] ["id"]] ]
    [ BlockIndex ["user_id"]; BlockMap "Session" ].

Definition AuthKey : Model :=
  mkModel "AuthKey"
    [ mkField "id" TString Required [AtId; AtUnique];
      mkField "hashed_password" TString Optional [];
      mkField "user_id" TString Required [AtDbUuid];
      mkField "primary_key" TBoolean Required [];
      mkField "expires" TBigInt Optional [];
      mkField "auth_user" (TNamed "AuthUser") Required
        [relationCascade ["user_id"] ["id"]] ]
    [ BlockIndex ["user_id"]; BlockMap "UserAuthentication" ].

Definition UserEmailVerification : Model :=
  mkModel "UserEmailVerification"
    [ mkField "userId" TString Required [AtDbUuid];
      mkField "user" (TNamed "AuthUser") Required
        [relationCascade ["userId"] ["id"]];
      mkField "email" TString Required [];
      mkField "token" TString Required [AtId; AtUnique];
      mkField "expires" TBigInt Required [] ]
    [].

Definition UserSystemRole : Model :=
  mkModel "UserSystemRole"
    [ mkField "user" (TNamed "AuthUser") Required
        [relationCascade ["userId"] ["id"]];
      mkField "userId" TString Required [AtDbUuid];
      mkField "role" (TNamed "SystemRole") Required [] ]
    [ BlockId ["userId"; "role"] ].

Definition Book : Model :=
  mkModel "Book"
    [ mkField "id" TInt Required [AtId];
      mkField "name" TString Required [AtUnique];
      mkField "verses" (TNamed "Verse") List [] ]
    [].

Definition Verse : Model :=
  mkModel "Verse"
    [ mkField "id" TString Required [AtId];
      mkField "number" TInt Required [];
      mkField "chapter" TInt Required [];
      mkField "book" (TNamed "Book") Required [relation ["bookId"] ["id"]];
      mkField "bookId" TInt Required [];
      mkField "words" (TNamed "Word") List [] ]
    [ BlockUnique ["bookId"; "chapter"; "number"] ].

Definition Word : Model :=
  mkModel "Word"
    [ mkField "id" TString Required [AtId];
      mkField "text" TString Required [];
      mkField "verse" (TNamed "Verse") Required [relation ["verseId"] ["id"]];
      mkField "verseId" TString Required [];
      mkField "form" (TNamed "LemmaForm") Required [relation ["formId"] ["id"]];
      mkField "formId" TString Required [];
      mkField "glosses" (TNamed "Gloss") List [];
      mkField "glossHistory" (TNamed "GlossHistoryEntry") List [];
      mkField "machineGlosses" (TNamed "MachineGloss") List [];
      mkField "translatorNotes" (TNamed "TranslatorNote") List [];
      mkField "footnotes" (TNamed "Footnote") List [] ]
    [ BlockIndex ["formId"] ].

Definition LemmaForm : Model :=
  mkModel "LemmaForm"
    [ mkField "id" TString Required [AtId];
      mkField "grammar" TString Required [];
      mkField "lemma" (TNamed "Lemma") Required [relation ["lemmaId"] ["id"]];
      mkField "lemmaId" TString Required [];
      mkField "word" (TNamed "Word") List [] ]
    [ BlockIndex ["lemmaId"] ].

Definition Lemma_ : Model :=
  mkModel "Lemma"
    [ mkField "id" TString Required [AtId];
      mkField "forms" (TNamed "LemmaForm") List [];
      mkField "resources" (TNamed "LemmaResource") List [] ]
    [].

Definition Language : Model :=
  mkModel "Language"
    [ mkField "id" TString Required [AtId; ulid; AtDbUuid];
      mkField "code" TString Required [AtUnique];
      mkField "name" TString Required [];
      mkField "font" TString Required [AtDefault (Literal (VString "Noto Sans"))];
      mkField "textDirection" (TNamed "TextDirection") Required [enumDefault "ltr"];
      mkField "bibleTranslationIds" TString List [];
      mkField "glosses" (TNamed "Gloss") List [];
      mkField "glossHistory" (TNamed "GlossHistoryEntry") List [];
      mkField "machineGlosses" (TNamed "MachineGloss") List [];
      mkField "translatorNotes" (TNamed "TranslatorNote") List [];
      mkField "footnotes" (TNamed "Footnote") List [];
      mkField "roles" (TNamed "LanguageMemberRole") List [];
      mkField "importJob" (TNamed "LanguageImportJob") Optional [] ]
    [].

Definition LanguageImportJob : Model :=
  mkModel "LanguageImportJob"
    [ mkField "language" (TNamed "Language") Required
        [relation ["languageId"] ["id"]];
      mkField "languageId" TString Required [AtId; AtDbUuid];
      mkField "user" (TNamed "AuthUser") Optional [relation ["userId"] ["id"]];
      mkField "userId" TString Optional [AtDbUuid];
      mkField "startDate" TDateTime Required [];
      mkField "endDate" TDateTime Optional [];
      mkField "succeeded" TBoolean Optional [] ]
    [].

Definition LanguageMemberRole : Model :=
  mkModel "LanguageMemberRole"
    [ mkField "user" (TNamed "AuthUser") Required [relation ["userId"] ["id"]];
      mkField "userId" TString Required [AtDbUuid];
      mkField "language" (TNamed "Language") Required
        [relation ["languageId"] ["id"]];
      mkField "languageId" TString Required [AtDbUuid];
      mkField "role" (TNamed "LanguageRole") Required [] ]
    [ BlockId ["languageId"; "userId"; "role"] ].

Definition Gloss : Model :=
  mkModel "Gloss"
    [ mkField "word" (TNamed "Word") Required [relation ["wordId"] ["id"]];
      mkField "wordId" TString Required [];
      mkField "language" (TNamed "Language") Required
        [relation ["languageId"] ["id"]];
      mkField "languageId" TString Required [AtDbUuid];
      mkField "gloss" TString Optional [];
      mkField "state" (TNamed "GlossState") Required [enumDefault "UNAPPROVED"] ]
    [ BlockId ["wordId"; "languageId"] ].

Definition GlossHistoryEntry : Model :=
  mkModel "GlossHistoryEntry"
    [ mkField "word" (TNamed "Word") Required [relation ["wordId"] ["id"]];
      mkField "wordId" TString Required [];
      mkField "language" (TNamed "Language") Required
        [relation ["languageId"] ["id"]];
      mkField "languageId" TString Required [AtDbUuid];
      mkField "timestamp" TDateTime Required [AtDefault Now];
      mkField "user" (TNamed "AuthUser") Optional [relation ["userId"] ["id"]];
      mkField "userId" TString Optional [AtDbUuid];
      mkField "gloss" TString Optional [];
      mkField "state" (TNamed "GlossState") Optional [];
      mkField "source" (TNamed "GlossSource") Required [] ]
    [ BlockId ["wordId"; "languageId"; "timestamp"] ].

Definition MachineGloss : Model :=
  mkModel "MachineGloss"
    [ mkField "word" (TNamed "Word") Required [relation ["wordId"] ["id"]];
      mkField "wordId" TString Required [];
      mkField "language" (TNamed "Language") Required
        [relation ["languageId"] ["id"]];
      mkField "languageId" TString Required [AtDbUuid];
      mkField "gloss" TString Optional [] ]
    [ BlockId ["wordId"; "languageId"] ].

Definition LemmaResource : Model :=
  mkModel "LemmaResource"
    [ mkField "lemma" (TNamed "Lemma") Required [relation ["lemmaId"] ["id"]];
      mkField "lemmaId" TString Required [];
      mkField "resourceCode" (TNamed "ResourceCode") Required [];
      mkField "content" TString Required [] ]
    [ BlockId ["lemmaId"; "resourceCode"]; BlockIndex ["lemmaId"] ].

Definition TranslatorNote : Model :=
  mkModel "TranslatorNote"
    [ mkField "word" (TNamed "Word") Required [relation ["wordId"] ["id"]];
      mkField "wordId" TString Required [];
      mkField "language" (TNamed "Language") Required
        [relation ["languageId"] ["id"]];
      mkField "languageId" TString Required [AtDbUuid];
      mkField "author" (TNamed "AuthUser") Required [relation ["authorId"] ["id"]];
      mkField "authorId" TString Required [AtDbUuid];
      mkField "timestamp" TDateTime Required [];
      mkField "content" TString Required [] ]
    [ BlockId ["wordId"; "languageId"] ].

Definition Footnote : Model :=
  mkModel "Footnote"
    [ mkField "word" (TNamed "Word") Required [relation ["wordId"] ["id"]];
      mkField "wordId" TString Required [];
      mkField "language" (TNamed "Language") Required
        [relation ["languageId"] ["id"]];
      mkField "languageId" TString Required [AtDbUuid];
      mkField "author" (TNamed "AuthUser") Required [relation ["authorId"] ["id"]];
      mkField "authorId" TString Required [AtDbUuid];
      mkField "timestamp" TDateTime Required [];
      mkField "content" TString Required [] ]
    [ BlockId ["wordId"; "languageId"] ].

Definition schema : Schema :=
  mkSchema
    [ EmailStatus; SystemRole; TextDirection; LanguageRole; GlossState;
      GlossSource; ResourceCode ]
    [ AuthUser; AuthSession; AuthKey; UserEmailVerification; UserSystemRole;
      Book; Verse; Word; LemmaForm; Lemma_; Language; LanguageImportJob;
      LanguageMemberRole; Gloss; GlossHistoryEntry; MachineGloss;
      LemmaResource; TranslatorNote; Footnote ].

(** The field of a model, by name. *)
Definition fieldOf (m : Model) (name : string) : option Field :=
  List.find (λ f, bool_decide (fieldName f = name)) (fields m).

(** *** Users and the rows that point to them *)

(** Column [f] of row [r] holds the id [u]. *)
Definition pointsTo (f u : string) (r : Row) : bool :=
  bool_decide (column r f = VString u).

(** The table without the rows that point to [u], and the table with their
    pointer set to null. *)
Definition without (f u : string) (table : list Row) : list Row :=
  List.filter (λ r, negb (pointsTo f u r)) table.

Definition detached (f u : string) (table : list Row) : list Row :=
  (λ r, if pointsTo f u r then <[f := VNull]> r else r) <$> table.

(** The tables that the claim names as dependent on a user, each with its
    column for the user's id. *)
Definition userDependents : list (string * string) :=
  [ ("AuthSession", "user_id"); ("AuthKey", "user_id");
    ("UserEmailVerification", "userId"); ("UserSystemRole", "userId");
    ("LanguageMemberRole", "userId"); ("LanguageImportJob", "userId");
    ("GlossHistoryEntry", "userId"); ("TranslatorNote", "authorId");
    ("Footnote", "authorId") ].

(** Deleting user [u] goes through and takes every dependent row with it. *)
Definition cascadesToAll (db : Database) (u : string) : Prop :=
  ∃ db',
    Prisma.delete schema "AuthUser" [VString u] db = Ok db' ∧
    ∀ t f, (t, f) ∈ userDependents → rows t db' = without f u (rows t db).

(** A member role, a translator note or a footnote points to [u]. *)
Definition holdsUser (db : Database) (u : string) : bool :=
  existsb (pointsTo "userId" u) (rows "LanguageMemberRole" db)
  || existsb (pointsTo "authorId" u) (rows "TranslatorNote" db)
  || existsb (pointsTo "authorId" u) (rows "Footnote" db).

(** The database that a history builds; empty if the history fails. *)
Definition build (ops : list Op) : Database :=
  match run schema ops ∅ with
  | Ok db => db
  | Err _ => ∅
  end.

Definition row (l : list (string * Value)) : Row := list_to_map l.

Definition env0 : DbEnv := mkDbEnv (λ _, "00000000-0000-0000-0000-000000000000") 0.

(** *** Sample histories *)

Definition newUser (id : string) : Op :=
  Create env0 "AuthUser" (row [("id", VString id)]).

Definition newLanguage (id code : string) : Op :=
  Create env0 "Language"
    (row [("id", VString id); ("code", VString code); ("name", VString code)]).

Definition newSession (id user : string) : Op :=
  Create env0 "AuthSession"
    (row [("id", VString id); ("user_id", VString user);
          ("active_expires", VInt 0); ("idle_expires", VInt 0)]).

Definition newRole (language user role : string) : Op :=
  Create env0 "LanguageMemberRole"
    (row [("languageId", VString language); ("userId", VString user);
          ("role", VEnum role)]).

Definition newImportJob (language user : string) : Op :=
  Create env0 "LanguageImportJob"
    (row [("languageId", VString language); ("userId", VString user);
          ("startDate", VDateTime 0)]).

(** A word needs its verse, book, lemma form and lemma. *)
Definition newWord (id : string) : list Op :=
  [ Create env0 "Book" (row [("id", VInt 1); ("name", VString "Gen")]);
    Create env0 "Verse"
      (row [("id", VString "01001001"); ("number", VInt 1);
            ("chapter", VInt 1); ("bookId", VInt 1)]);
    Create env0 "Lemma" (row [("id", VString "H7225")]);
    Create env0 "LemmaForm"
      (row [("id", VString "H7225-1"); ("grammar", VString "N");
            ("lemmaId", VString "H7225")]);
    Create env0 "Word"
      (row [("id", VString id); ("text", VString "bereshit");
            ("verseId", VString "01001001"); ("formId", VString "H7225-1")]) ].

Definition newGloss (word language text : string) : Op :=
  Create env0 "Gloss"
    (row [("wordId", VString word); ("languageId", VString language);
          ("gloss", VString text)]).

(** A language and a word that has no gloss yet. *)
Definition unglossed : list Op := newWord "0100100101" ++ [ newLanguage "l1" "es" ].
Definition dbUnglossed : Database := build unglossed.

(** A language with one glossed word. *)
Definition glossed : list Op :=
  newWord "0100100101"
    ++ [ newLanguage "l1" "es"; newGloss "0100100101" "l1" "en el principio" ].
Definition dbGlossed : Database := build glossed.

(** A language and a word whose gloss was changed at instant 5. *)
Definition at5 : DbEnv := mkDbEnv (generated env0) 5.
Definition changed : list Op :=
  unglossed
    ++ [ Create at5 "GlossHistoryEntry"
           (row [("wordId", VString "0100100101"); ("languageId", VString "l1");
                 ("source", VEnum "USER")]) ].
Definition dbChanged : Database := build changed.

(** A user with a session and a role on a language. *)
Definition member : list Op :=
  [ newUser "u1"; newLanguage "l1" "es"; newSession "s1" "u1";
    newRole "l1" "u1" "ADMIN" ].
Definition dbMember : Database := build member.

(** A user with a session who has started an import. *)
Definition importer : list Op :=
  [ newUser "u1"; newLanguage "l1" "es"; newSession "s1" "u1";
    newImportJob "l1" "u1" ].
Definition dbImporter : Database := build importer.

(** Two languages with the ids the database gives them, and a word that has
    a gloss in the first and none in the second. *)
Definition spanish : string := "018f4e9a-7b3c-7d2e-8a1f-3c5d7e9b0001".
Definition french : string := "018f4e9a-7b3c-7d2e-8a1f-3c5d7e9b0002".
Definition german : string := "018f4e9a-7b3c-7d2e-8a1f-3c5d7e9b0003".
Definition polyglot : list Op :=
  newWord "0100100101"
    ++ [ newLanguage spanish "es"; newLanguage french "fr";
         newGloss "0100100101" spanish "en el principio" ].
Definition dbPolyglot : Database := build polyglot.

End Schema.


(** ** JavaScript values *)

Module Js.

Inductive Json :=
| JUndefined
| JNull
| JBool (b : bool)
| JNumber (n : Z)
| JString (s : string)
| JArray (items : list Json)
| JObject (props : list (string * Json)).

(** An object: its own properties, in insertion order. *)
Abbreviation Obj := (list (string * Json)).

(** [o.k]; a property that is not there reads as [undefined]. *)
Fixpoint getProp (k : string) (o : Obj) : Json :=
  match o with
  | [] => JUndefined
  | (k', v) :: o => if bool_decide (k' = k) then v else getProp k o
  end.

Definition keys (o : Obj) : list string := fst <$> o.

(** A thrown value, as far as a handler looks at it: [error instanceof
    ApiClientError], [error.status], and its string form.  The class
    [ApiClientError] belongs to the client's transport, which is not among the
    sources; an error of the class carries the HTTP status in [status]. *)
Record Thrown := mkThrown {
  instanceOfApiClientError : bool;
  status : Json;
  toString : string;
}.

(** [v === 401] *)
Definition is401 (v : Json) : bool :=
  match v with
  | JNumber n => bool_decide (n = 401%Z)
  | _ => false
  end.

End Js.

(** ** Promises, the network and the page *)

Module Http.
Import Js.

Inductive Method := GET | POST | PATCH | DELETE.

Record Request := mkRequest {
  method : Method;
  url : string;
  params : option Obj;
  payload : option Json;
}.

(** What the view does to the page. *)
Inductive UiEffect :=
| RefreshAuth
| Navigate (to : string)
| FlashError (message : string).

Record World := mkWorld {
  sent : list Request;          (* every HTTP request issued so far *)
  ui : list UiEffect;
}.

Inductive Settled (A : Type) :=
| Fulfilled (a : A)
| Rejected (e : Thrown).
Arguments Fulfilled {A} a.
Arguments Rejected {A} e.

Definition Promise (A : Type) : Type := World → Settled A * World.

#[global] Instance promise_ret : MRet Promise := λ A a w, (Fulfilled a, w).
#[global] Instance promise_bind : MBind Promise :=
  λ A B f p w,
    match p w with
    | (Fulfilled a, w') => f a w'
    | (Rejected e, w') => (Rejected e, w')
    end.

(** [try { body } catch (error) { handler }] *)
Definition tryCatch {A} (body : Promise A) (handler : Thrown → Promise A)
  : Promise A :=
  λ w,
    match body w with
    | (Fulfilled a, w') => (Fulfilled a, w')
    | (Rejected e, w') => handler e w'
    end.

(** Modelled from the spec: the hooks [useAuth] and [useFlash] are not among
    the sources, and [useNavigate] is the router's.  Section 4.3: on success
    the view refreshes local auth state and navigates; on an error it shows a
    message.  Each is one effect on the page, and none of them throws. *)
Definition effect (e : UiEffect) : Promise () :=
  λ w, (Fulfilled (), mkWorld (sent w) (ui w ++ [e])).

(** The server and the wire: given the requests made before, how a request
    settles. *)
Definition Network : Type := list Request → Request → Settled Json.

(** The argument of the client's methods: [{ path, query?, body? }]. *)
Record ClientRequest := mkClientRequest {
  path : string;
  query : option Obj;
  body : option Json;
}.

Record ApiClient := mkApiClient {
  get : ClientRequest → Promise Json;
  post : ClientRequest → Promise Json;
  patch : ClientRequest → Promise Json;
  delete : ClientRequest → Promise Json;
}.

(** Modelled from the spec: the class [ApiClient] ([./client]) is not among
    the sources.  Section 4.1: each method performs exactly one HTTP call and
    returns the parsed body or throws a client error carrying the HTTP
    status. *)
Definition call (net : Network) (m : Method) (r : ClientRequest) : Promise Json :=
  λ w,
    let req := mkRequest m (path r) (query r) (body r) in
    (net (sent w) req, mkWorld (sent w ++ [req]) (ui w)).

Definition httpClient (net : Network) : ApiClient :=
  mkApiClient (call net GET) (call net POST) (call net PATCH) (call net DELETE).

(** What an [async] method that awaits a promise and returns nothing settles
    to. *)
Definition discarded (outcome : Settled Json) : Settled Json :=
  match outcome with
  | Fulfilled _ => Fulfilled JUndefined
  | Rejected e => Rejected e
  end.

(** Running [p] issues the request [r] and no other, and leaves the page as
    it is. *)
Definition issuesOnly {A} (p : Promise A) (r : Request) : Prop :=
  ∀ w, (p w).2 = mkWorld (sent w ++ [r]) (ui w).

(** The body of the request that [p] issues last. *)
Definition sentBody {A} (p : Promise A) (w : World) : option Json :=
  last (sent (p w).2) ≫= payload.

End Http.

(** ** The api-client classes

    A method that returns the client's promise settles as the request does; an
    [async] method that only awaits it fulfils with [undefined]. *)

Module Auth.
Import Js Http.

Section Auth.
Variable client : ApiClient.

Definition session : Promise Json :=
  get client (mkClientRequest "/api/auth/session" None None).

Definition login (request : Obj) : Promise Json :=
  let email := getProp "email" request in
  let password := getProp "password" request in
  post client
    (mkClientRequest "/api/auth/login" None
       (Some (JObject [("email", email); ("password", password)]))).

Definition logout : Promise Json :=
  post client (mkClientRequest "/api/auth/logout" None None).

Definition getInvite (token : string) : Promise Json :=
  get client
    (mkClientRequest "/api/auth/invite" (Some [("token", JString token)]) None).

Definition acceptInvite (request : Obj) : Promise Json :=
  let token := getProp "token" request in
  let name := getProp "name" request in
  let password := getProp "password" request in
  post client
    (mkClientRequest "/api/auth/invite" None
       (Some (JObject [("token", token); ("name", name);
                       ("password", password)]))).
End Auth.

End Auth.

Module Languages.
Import Js Http.

Section Languages.
Variable client : ApiClient.

Definition findAll : Promise Json :=
  get client (mkClientRequest "/api/languages" None None).

Definition create (language : Json) : Promise Json :=
  _ ← post client (mkClientRequest "/api/languages" None (Some language));
  mret JUndefined.

Definition startImport (code : string) (body : Json) : Promise Json :=
  _ ← post client
        (mkClientRequest ("/api/languages/" +:+ code +:+ "/import") None
           (Some body));
  mret JUndefined.

Definition importStatus (code : string) : Promise Json :=
  _ ← get client
        (mkClientRequest ("/api/languages/" +:+ code +:+ "/import") None None);
  mret JUndefined.

Definition findByCode (code : string) : Promise Json :=
  get client (mkClientRequest ("/api/languages/" +:+ code) None None).

Definition update (code : string) (language : Json) : Promise Json :=
  _ ← patch client
        (mkClientRequest ("/api/languages/" +:+ code) None (Some language));
  mret JUndefined.

Definition findMembers (code : string) : Promise Json :=
  get client
    (mkClientRequest ("/api/languages/" +:+ code +:+ "/members") None None).

Definition inviteMember (code : string) (request : Json) : Promise Json :=
  post client
    (mkClientRequest ("/api/languages/" +:+ code +:+ "/members") None
       (Some request)).

Definition updateMember (code userId : string) (roles : list Json)
  : Promise Json :=
  let body := JObject [("roles", JArray roles)] in
  patch client
    (mkClientRequest
       ("/api/languages/" +:+ code +:+ "/members/" +:+ userId) None
       (Some body)).

Definition removeMember (code userId : string) : Promise Json :=
  Http.delete client
    (mkClientRequest
       ("/api/languages/" +:+ code +:+ "/members/" +:+ userId) None None).
End Languages.

(** [PostLanguageMemberRequestBody] is declared in the api-types package,
    which is not among the sources; [required] stands for its fields.  An
    object is of the type when it has them all.  The claim: whatever object
    of the type the caller passes, the body holds the required fields and
    nothing else. *)
Definition sendsExactly (required : list string) : Prop :=
  ∀ (net : Network) (code : string) (request : Obj) (w : World),
    required ⊆ keys request →
    ∃ body,
      sentBody (inviteMember (httpClient net) code (JObject request)) w
      = Some (JObject body) ∧
      ∀ k, k ∈ keys body ↔ k ∈ required.

End Languages.

(** ** The login view *)

Module LoginView.
Import Js Http.

Record FormData := mkFormData {
  email : string;
  password : string;
}.

Section LoginView.
(** [apiClient.auth] is [Auth] over the shared client; [t] is the
    translation function of [useTranslation]. *)
Variable apiClient : ApiClient.
Variable t : string → string.

Definition refreshAuth : Promise () := effect RefreshAuth.
Definition navigate (to : string) : Promise () := effect (Navigate to).
Definition flash_error (message : string) : Promise () :=
  effect (FlashError message).

Definition onSubmit (data : FormData) : Promise () :=
  tryCatch
    (_ ← Auth.login apiClient
           [("email", JString (email data));
            ("password", JString (password data))];
     _ ← refreshAuth;
     navigate "/")
    (λ error,
       if instanceOfApiClientError error && is401 (status error)
       then flash_error (t "users:errors.invalid_auth")
       else flash_error (toString error)).
End LoginView.

End LoginView.

(** * Tactics *)

(** A closed, decidable statement, by evaluation. *)
Ltac by_compute := apply (bool_decide_unpack _); vm_compute; exact I.

(** An equation whose sides evaluate to the same term, parameters included. *)
Ltac by_vm :=
  lazymatch goal with |- _ = ?y => vm_cast_no_check (eq_refl y) end.

(** Membership in a list that is written out. *)
Ltac in_list :=
  solve [ repeat first [ apply list_elem_of_here | apply list_elem_of_further ] ].

(** * Facts about the database operations *)

Import Prisma.

Section PrismaFacts.
Context (s : Schema).

Lemma bind_Ok {A B} (m : result A) (f : A → result B) b :
  m ≫= f = Ok b → ∃ a, m = Ok a ∧ f a = Ok b.
Proof. destruct m as [a|e]; [eauto | discriminate]. Qed.

Lemma require_Ok b e : require b e = Ok () → b = true.
Proof. by destruct b. Qed.

Lemma column_lookup (r : Row) f v : r !! f = Some v → column r f = v.
Proof. unfold column. by intros ->. Qed.

Lemma fieldValue_given env data f v w :
  data !! fieldName f = Some v → fieldValue s env data f = Ok w → w = v.
Proof.
  unfold fieldValue. intros ->. destruct (wellTyped s f v); congruence.
Qed.

Lemma complete_given env data fs row name v :
  complete s env data fs = Ok row →
  name ∈ fieldName <$> fs →
  data !! name = Some v →
  row !! name = Some v.
Proof.
  revert row. induction fs as [|f fs IH]; intros row Hc Hin Hd.
  - by apply elem_of_nil in Hin.
  - cbn [complete] in Hc.
    apply bind_Ok in Hc as (w & Hw & Hc).
    apply bind_Ok in Hc as (r & Hr & [= <-]).
    destruct (decide (fieldName f = name)) as [<-|Hne].
    + rewrite lookup_insert_eq. f_equal. eauto using fieldValue_given.
    + rewrite lookup_insert_ne by done. apply IH; [done| |done].
      rewrite fmap_cons in Hin. apply elem_of_cons in Hin as [?|?]; congruence.
Qed.

Lemma complete_value env data fs row f :
  complete s env data fs = Ok row → f ∈ fs →
  ∃ w, fieldValue s env data f = Ok w.
Proof.
  revert row. induction fs as [|g fs IH]; intros row Hc Hin.
  - by apply elem_of_nil in Hin.
  - cbn [complete] in Hc.
    apply bind_Ok in Hc as (w & Hw & Hc).
    apply bind_Ok in Hc as (r & Hr & _).
    apply elem_of_cons in Hin as [->|Hin]; eauto.
Qed.


Lemma validate_given env m data row name :
  validate s env m data = Ok row →
  mustBeGiven s m name = true →
  column row name = column data name.
Proof.
  unfold validate. intros Hv Hm.
  apply bind_Ok in Hv as (_ & _ & Hc).
  apply existsb_exists in Hm as (f & Hf & Hm).
  apply andb_prop in Hm as [Hm Hreq]. apply andb_prop in Hm as [Hn Hdef].
  apply bool_decide_eq_true in Hn, Hdef. apply list_elem_of_In in Hf.
  destruct (complete_value _ _ _ _ _ Hc Hf) as [w Hw].
  unfold fieldValue in Hw. rewrite Hn in Hw.
  destruct (data !! name) as [v|] eqn:Hd.
  - rewrite (column_lookup data name v Hd). apply column_lookup.
    eapply complete_given; [exact Hc| |done].
    rewrite <- Hn. by apply list_elem_of_fmap_2.
  - rewrite Hdef in Hw. by destruct (modifier f).
Qed.

Lemma validate_key env m data row key :
  validate s env m data = Ok row →
  forallb (mustBeGiven s m) key = true →
  project key row = project key data.
Proof.
  intros Hv. unfold project. induction key as [|k key IH]; [done|].
  cbn [forallb]. intros [Hk Hkey]%andb_prop. rewrite !fmap_cons.
  f_equal; eauto using validate_given.
Qed.

Lemma create_inv env n data db db' :
  create s env n data db = Ok db' →
  ∃ m row,
    findModel s n = Some m ∧ validate s env m data = Ok row ∧
    violatesUnique m row (rows n db) = false ∧
    forallb (fkSatisfied db row) (foreignKeys m) = true ∧
    db' = <[n := rows n db ++ [row]]> db.
Proof.
  unfold create. intros H.
  apply bind_Ok in H as (m & Hm & H).
  apply bind_Ok in H as (row & Hrow & H).
  apply bind_Ok in H as ([] & Hu%require_Ok & H).
  apply bind_Ok in H as ([] & Hfk%require_Ok & [= <-]).
  exists m, row. destruct (findModel s n); [|done].
  injection Hm as ->. by rewrite negb_true_iff in Hu.
Qed.

Lemma create_Ok env n data db m row :
  findModel s n = Some m →
  validate s env m data = Ok row →
  violatesUnique m row (rows n db) = false →
  forallb (fkSatisfied db row) (foreignKeys m) = true →
  create s env n data db = Ok (<[n := rows n db ++ [row]]> db).
Proof.
  unfold create. intros Hm Hv Hu Hfk.
  rewrite Hm. cbn [of_option mbind result_bind].
  rewrite Hv. cbn [mbind result_bind]. rewrite Hu. cbn [negb require].
  by rewrite Hfk.
Qed.

Lemma violatesUnique_true m row table key r :
  key ∈ uniqueKeys m → r ∈ table → project key row = project key r →
  violatesUnique m row table = true.
Proof.
  intros Hk Hr Heq. apply existsb_exists. exists key.
  split; [by apply list_elem_of_In|].
  apply existsb_exists. exists r. split; [by apply list_elem_of_In|].
  by apply bool_decide_eq_true.
Qed.

Lemma violatesUnique_false m row table key :
  violatesUnique m row table = false → key ∈ uniqueKeys m →
  project key row ∉ project key <$> table.
Proof.
  intros Hv Hk [r [Heq Hr]]%list_elem_of_fmap.
  rewrite (violatesUnique_true m row table key r) in Hv; done.
Qed.

(** A row whose key, primary or unique, is taken does not enter the table. *)
Lemma create_key_taken env n data db m row key r :
  findModel s n = Some m →
  validate s env m data = Ok row →
  key ∈ uniqueKeys m →
  r ∈ rows n db →
  project key row = project key r →
  create s env n data db = Err UniqueConstraintViolation.
Proof.
  intros Hm Hv Hk Hr Heq. unfold create.
  rewrite Hm. cbn [of_option mbind result_bind]. rewrite Hv.
  cbn [mbind result_bind]. by rewrite (violatesUnique_true m row _ key r).
Qed.

Lemma create_key_taken_rejected env n data db m key r :
  findModel s n = Some m →
  key ∈ uniqueKeys m →
  forallb (mustBeGiven s m) key = true →
  r ∈ rows n db →
  project key data = project key r →
  ∃ e, create s env n data db = Err e.
Proof.
  intros Hm Hk Hg Hr Heq.
  destruct (validate s env m data) as [row|e] eqn:Hv.
  - exists UniqueConstraintViolation.
    eapply create_key_taken; eauto. by erewrite validate_key.
  - exists e. unfold create.
    rewrite Hm. cbn [of_option mbind result_bind]. by rewrite Hv.
Qed.


(** *** Deleting keeps keys unique *)

Lemma rows_insert n n' t (db : Database) :
  rows n' (<[n := t]> db) = if decide (n = n') then t else rows n' db.
Proof. unfold rows. rewrite lookup_insert. by destruct (decide (n = n')). Qed.

Lemma rows_insert_eq n t (db : Database) : rows n (<[n := t]> db) = t.
Proof. rewrite rows_insert. by rewrite decide_True. Qed.

Lemma rows_insert_ne n n' t (db : Database) :
  n ≠ n' → rows n' (<[n := t]> db) = rows n' db.
Proof. intros. rewrite rows_insert. by rewrite decide_False. Qed.

Lemma rows_empty n : rows n ∅ = [].
Proof. unfold rows. by rewrite lookup_empty. Qed.

Lemma shrinks_refl db : shrinks s db db.
Proof. by intros n m key _ _. Qed.

Lemma shrinks_trans db1 db2 db3 :
  shrinks s db1 db2 → shrinks s db2 db3 → shrinks s db1 db3.
Proof.
  intros H12 H23 n m key Hm Hk.
  transitivity (project key <$> rows n db2); eauto.
Qed.

Lemma shrinks_keysUnique db db' : shrinks s db db' → keysUnique s db → keysUnique s db'.
Proof. intros Hs Hu n m key Hm Hk. eapply sublist_NoDup; eauto. Qed.

Lemma filter_sublist {A} (f : A → bool) (l : list A) : List.filter f l `sublist_of` l.
Proof.
  induction l as [|a l IH]; cbn; [done|].
  destruct (f a); by constructor.
Qed.

Lemma shrinks_insert db n t :
  (∀ m key, findModel s n = Some m → key ∈ uniqueKeys m →
     (project key <$> t) `sublist_of` (project key <$> rows n db)) →
  shrinks s db (<[n := t]> db).
Proof.
  intros H n' m key Hm Hk. rewrite rows_insert.
  destruct (decide (n = n')) as [<-|]; eauto.
Qed.

Lemma shrinks_remove db n victims :
  shrinks s db (<[n := removeRows victims (rows n db)]> db).
Proof.
  apply shrinks_insert. intros m key _ _.
  apply fmap_sublist, filter_sublist.
Qed.

Lemma column_setNull_ne fs r f : f ∉ fs → column (setNull fs r) f = column r f.
Proof.
  induction fs as [|g fs IH]; cbn; [done|]. intros Hf.
  apply not_elem_of_cons in Hf as [Hne Hf].
  unfold column in *. rewrite lookup_insert_ne by done. auto.
Qed.

Lemma column_setNull_eq fs r f : f ∈ fs → column (setNull fs r) f = VNull.
Proof.
  induction fs as [|g fs IH]; cbn; [by intros ?%elem_of_nil|].
  intros Hf. unfold column in *.
  destruct (decide (g = f)) as [->|Hne].
  - by rewrite lookup_insert_eq.
  - rewrite lookup_insert_ne by done.
    apply elem_of_cons in Hf as [?|?]; [congruence|auto].
Qed.

Lemma project_setNull key fs r :
  (∀ f, f ∈ fs → f ∉ key) → project key (setNull fs r) = project key r.
Proof.
  intros Hd. unfold project. apply list_fmap_ext. intros i f Hf.
  apply column_setNull_ne. intros Hin. eapply Hd; [done|].
  by eapply list_elem_of_lookup_2.
Qed.

Lemma project_nullify key fk victims r :
  (∀ f, f ∈ fkFields fk → f ∉ key) →
  project key (nullify fk victims r) = project key r.
Proof.
  intros Hd. unfold nullify. destruct (refersTo fk victims r); [|done].
  by apply project_setNull.
Qed.

Hypothesis safe : setNullSafe s = true.

Lemma setNull_fields fk parent m key f :
  fk ∈ referencing s parent → fkOnDelete fk = SetNull →
  findModel s (fkChild fk) = Some m → key ∈ uniqueKeys m →
  f ∈ fkFields fk → f ∉ key.
Proof.
  unfold referencing. intros Hfk Hact Hm Hk Hf.
  apply list_elem_of_In, filter_In in Hfk as [Hfk _].
  apply in_concat in Hfk as (fks & Hfks & Hfk).
  apply list_elem_of_In, list_elem_of_fmap in Hfks as (m0 & -> & Hm0).
  apply list_elem_of_In in Hfk.
  unfold setNullSafe in safe. rewrite forallb_forall in safe.
  specialize (safe m0 (proj1 (list_elem_of_In _ _) Hm0)).
  rewrite forallb_forall in safe.
  specialize (safe fk (proj1 (list_elem_of_In _ _) Hfk)).
  rewrite Hact, Hm in safe.
  rewrite forallb_forall in safe.
  specialize (safe key (proj1 (list_elem_of_In _ _) Hk)).
  rewrite forallb_forall in safe.
  specialize (safe f (proj1 (list_elem_of_In _ _) Hf)).
  by apply negb_true_iff, bool_decide_eq_false in safe.
Qed.

Lemma onDelete_shrinks cascade victims parent db fk db' :
  (∀ c d db db', cascade c d db = Ok db' → shrinks s db db') →
  fk ∈ referencing s parent →
  onDelete cascade victims db fk = Ok db' → shrinks s db db'.
Proof.
  intros Hc Hfk. unfold onDelete.
  destruct (List.filter _ _) as [|d ds].
  { intros [= <-]. apply shrinks_refl. }
  destruct (fkOnDelete fk) eqn:Hact; try discriminate.
  - apply Hc.
  - intros [= <-]. apply shrinks_insert. intros m key Hm Hk.
    rewrite <- list_fmap_compose.
    erewrite (list_fmap_ext (project key ∘ nullify fk victims)); [done|].
    intros i r _. cbn. apply project_nullify.
    intros f Hf. eapply setNull_fields; eauto.
Qed.

Lemma foldl_Err {A} (f : Database → A → result Database) e l :
  foldl (λ acc a, db ← acc; f db a) (Err e) l = Err e.
Proof. induction l; cbn; auto. Qed.

Lemma foldl_shrinks {A} (f : Database → A → result Database) l db0 db' :
  (∀ a db db', a ∈ l → f db a = Ok db' → shrinks s db db') →
  foldl (λ acc a, db ← acc; f db a) (Ok db0) l = Ok db' →
  shrinks s db0 db'.
Proof.
  revert db0. induction l as [|a l IH]; intros db0 Hf; cbn.
  - intros [= <-]. apply shrinks_refl.
  - destruct (f db0 a) as [db1|e] eqn:Ha.
    + intros H. eapply shrinks_trans.
      * eapply Hf; [|done]. left.
      * apply IH; [|done]. intros ????. apply Hf. by right.
    + by rewrite foldl_Err.
Qed.

Lemma deleteRows_shrinks fuel parent victims db db' :
  deleteRows s fuel parent victims db = Ok db' → shrinks s db db'.
Proof.
  revert parent victims db db'.
  induction fuel as [|fuel IH]; intros parent victims db db'; [done|].
  cbn [deleteRows]. intros H.
  eapply shrinks_trans; [apply (shrinks_remove db parent victims)|].
  eapply foldl_shrinks; [|exact H].
  intros fk db1 db2 Hfk. by apply onDelete_shrinks with (parent := parent).
Qed.

Lemma delete_shrinks n key db db' :
  delete s n key db = Ok db' → shrinks s db db'.
Proof.
  unfold delete. intros H. apply bind_Ok in H as (m & _ & H).
  destruct (List.filter _ _); [done|].
  by eapply deleteRows_shrinks.
Qed.

Lemma create_keysUnique env n data db db' :
  create s env n data db = Ok db' → keysUnique s db → keysUnique s db'.
Proof.
  intros (m & row & Hm & _ & Hu & _ & ->)%create_inv Huniq n' m' key Hm' Hk.
  rewrite rows_insert. destruct (decide (n = n')) as [<-|]; [|eauto].
  assert (m' = m) as -> by congruence.
  rewrite fmap_app. apply NoDup_app. split_and!.
  - eauto.
  - intros k Hin [->|[]%elem_of_nil]%elem_of_cons.
    by eapply violatesUnique_false.
  - apply NoDup_singleton.
Qed.

Lemma run_keysUnique ops db db' :
  run s ops db = Ok db' → keysUnique s db → keysUnique s db'.
Proof.
  revert db. induction ops as [|op ops IH]; intros db; cbn [run].
  - by intros [= <-].
  - intros (db1 & Hstep & Hrun)%bind_Ok Hu. apply (IH db1 Hrun).
    destruct op; cbn [step] in Hstep.
    + by eapply create_keysUnique.
    + eapply shrinks_keysUnique; [|done]. by eapply delete_shrinks.
Qed.

(** In a database that a history has built, every key is unique. *)
Lemma reachable_keysUnique db : reachable s db → keysUnique s db.
Proof.
  intros [ops Hrun]. apply (run_keysUnique ops ∅ db Hrun).
  intros n m key _ _. rewrite rows_empty. constructor.
Qed.

End PrismaFacts.

(** ** Deleting from a table whose dependent tables nothing points to *)

Section DeleteLeaves.
Context (s : Schema).

Lemma filter_nil_existsb {A} (f : A → bool) l :
  List.filter f l = [] → existsb f l = false.
Proof.
  induction l as [|a l IH]; cbn; [done|].
  destruct (f a); [done|auto].
Qed.

Lemma filter_cons_existsb {A} (f : A → bool) l a l' :
  List.filter f l = a :: l' → existsb f l = true.
Proof.
  intros H. apply existsb_exists. exists a.
  apply filter_In. rewrite H. by left.
Qed.

Lemma filter_negb_id {A} (f : A → bool) l :
  List.filter f l = [] → List.filter (λ a, negb (f a)) l = l.
Proof.
  induction l as [|a l IH]; cbn; [done|].
  destruct (f a); [done|]. intros H. cbn. f_equal. auto.
Qed.

Lemma removeRows_dependents (f : Row → bool) table :
  removeRows (List.filter f table) table = List.filter (λ r, negb (f r)) table.
Proof.
  unfold removeRows. apply filter_ext_in. intros r Hr. f_equal.
  destruct (f r) eqn:Hf.
  - apply bool_decide_eq_true, list_elem_of_In, filter_In. done.
  - apply bool_decide_eq_false. intros [_ ?]%list_elem_of_In%filter_In.
    congruence.
Qed.

Lemma nullify_id fk victims table :
  List.filter (refersTo fk victims) table = [] →
  nullify fk victims <$> table = table.
Proof.
  induction table as [|r t IH]; cbn; [done|]. unfold nullify at 1.
  destruct (refersTo fk victims r); [done|]. intros H. f_equal. auto.
Qed.

Lemma afterDelete_id fk victims table :
  List.filter (refersTo fk victims) table = [] →
  afterDelete fk victims table = table.
Proof.
  intros H. unfold afterDelete.
  destruct (fkOnDelete fk); auto using filter_negb_id, nullify_id.
Qed.

Lemma deleteRows_leaf fuel parent victims db :
  referencing s parent = [] →
  deleteRows s (S fuel) parent victims db
  = Ok (<[parent := removeRows victims (rows parent db)]> db).
Proof. intros H. cbn [deleteRows]. by rewrite H. Qed.

(** One foreign key whose table nothing points to. *)
Lemma onDelete_leaf fuel victims db fk :
  referencing s (fkChild fk) = [] →
  if blocks fk victims (rows (fkChild fk) db)
  then onDelete (deleteRows s (S fuel)) victims db fk = Err ForeignKeyViolation
  else ∃ db',
      onDelete (deleteRows s (S fuel)) victims db fk = Ok db' ∧
      rows (fkChild fk) db'
      = afterDelete fk victims (rows (fkChild fk) db) ∧
      ∀ n, n ≠ fkChild fk → rows n db' = rows n db.
Proof.
  intros Hleaf. unfold onDelete, blocks.
  destruct (List.filter _ _) as [|d ds] eqn:Hdeps.
  - rewrite (filter_nil_existsb _ _ Hdeps).
    replace (match fkOnDelete fk with Cascade | _ => false end) with false
      by by destruct (fkOnDelete fk).
    exists db. by rewrite afterDelete_id.
  - rewrite (filter_cons_existsb _ _ _ _ Hdeps).
    unfold afterDelete. destruct (fkOnDelete fk); try done.
    + rewrite deleteRows_leaf by done. eexists. split; [done|].
      rewrite rows_insert_eq, <- Hdeps, removeRows_dependents.
      split; [done|]. intros n Hn. by rewrite rows_insert_ne.
    + eexists. split; [done|]. rewrite rows_insert_eq.
      split; [done|]. intros n Hn. by rewrite rows_insert_ne.
Qed.

Lemma existsb_blocks_ext victims fks db db' :
  (∀ fk, fk ∈ fks → rows (fkChild fk) db' = rows (fkChild fk) db) →
  existsb (λ fk, blocks fk victims (rows (fkChild fk) db')) fks
  = existsb (λ fk, blocks fk victims (rows (fkChild fk) db)) fks.
Proof.
  induction fks as [|fk fks IH]; intros H; cbn; [done|].
  rewrite H by left. f_equal. apply IH. intros ??. apply H. by right.
Qed.

(** All the foreign keys that point to a table, when nothing points to
    theirs: the delete goes through unless one of them blocks it, and then
    each has acted on its own table and no other table has changed. *)
Lemma foldl_onDelete_leaves fuel victims fks db :
  NoDup (fkChild <$> fks) →
  (∀ fk, fk ∈ fks → referencing s (fkChild fk) = []) →
  if existsb (λ fk, blocks fk victims (rows (fkChild fk) db)) fks
  then foldl (λ acc fk, db ← acc; onDelete (deleteRows s (S fuel)) victims db fk)
             (Ok db) fks = Err ForeignKeyViolation
  else ∃ db',
      foldl (λ acc fk, db ← acc; onDelete (deleteRows s (S fuel)) victims db fk)
            (Ok db) fks = Ok db' ∧
      (∀ fk, fk ∈ fks →
         rows (fkChild fk) db' = afterDelete fk victims (rows (fkChild fk) db)) ∧
      (∀ n, n ∉ fkChild <$> fks → rows n db' = rows n db).
Proof.
  revert db. induction fks as [|fk fks IH]; intros db Hnd Hleaf.
  { cbn. exists db. split_and!; [done| |done]. by intros ? ?%elem_of_nil. }
  rewrite fmap_cons in Hnd. apply NoDup_cons in Hnd as [Hfk Hnd].
  cbn [existsb foldl mbind result_bind].
  pose proof (onDelete_leaf fuel victims db fk (Hleaf fk ltac:(left))) as H1.
  destruct (blocks fk victims (rows (fkChild fk) db)); cbn [orb].
  { rewrite H1. apply foldl_Err. }
  destruct H1 as (db1 & -> & Hfk1 & Hframe1).
  assert (∀ fk', fk' ∈ fks → rows (fkChild fk') db1 = rows (fkChild fk') db)
    as Hsame.
  { intros fk' Hin. apply Hframe1. intros Heq. apply Hfk. rewrite <- Heq.
    by apply list_elem_of_fmap_2. }
  specialize (IH db1 Hnd (λ fk' Hin, Hleaf fk' ltac:(by right))).
  rewrite (existsb_blocks_ext victims fks db db1 Hsame) in IH.
  destruct (existsb _ fks); [done|].
  destruct IH as (db' & -> & Hfks & Hframe).
  exists db'. split_and!; [done| |].
  - intros fk' [->|Hin]%elem_of_cons.
    + by rewrite Hframe.
    + by rewrite Hfks, Hsame.
  - intros n [Hn1 Hn2]%not_elem_of_cons. rewrite Hframe by done. auto.
Qed.

End DeleteLeaves.

(** * The schema of the repository *)

Import Schema.

Lemma schema_setNullSafe : setNullSafe schema = true.
Proof. vm_compute. reflexivity. Qed.

Lemma schema_keysRequired : keysRequired schema = true.
Proof. vm_compute. reflexivity. Qed.

(** In a database that a history of creates and deletes has built, no two rows
    of a table agree on the primary key of its model, nor on any other key
    that the model declares unique. *)
Theorem schema_keys_unique (db : Database) :
  reachable schema db → keysUnique schema db.
Proof. apply reachable_keysUnique, schema_setNullSafe. Qed.

(** ** C2: what deleting a user does *)

Lemma referencing_AuthUser :
  referencing schema "AuthUser" =
  [ mkForeignKey "AuthSession" ["user_id"] "AuthUser" ["id"] Cascade;
    mkForeignKey "AuthKey" ["user_id"] "AuthUser" ["id"] Cascade;
    mkForeignKey "UserEmailVerification" ["userId"] "AuthUser" ["id"] Cascade;
    mkForeignKey "UserSystemRole" ["userId"] "AuthUser" ["id"] Cascade;
    mkForeignKey "LanguageImportJob" ["userId"] "AuthUser" ["id"] SetNull;
    mkForeignKey "LanguageMemberRole" ["userId"] "AuthUser" ["id"] Restrict;
    mkForeignKey "GlossHistoryEntry" ["userId"] "AuthUser" ["id"] SetNull;
    mkForeignKey "TranslatorNote" ["authorId"] "AuthUser" ["id"] Restrict;
    mkForeignKey "Footnote" ["authorId"] "AuthUser" ["id"] Restrict ].
Proof. vm_compute. reflexivity. Qed.

Lemma refersTo_pointsTo fk victims f u r :
  victims ≠ [] →
  (∀ v, v ∈ victims → project (fkReferences fk) v = [VString u]) →
  fkFields fk = [f] →
  refersTo fk victims r = pointsTo f u r.
Proof.
  intros Hne Hv Hf. unfold refersTo, pointsTo. rewrite Hf. cbn [project fmap list_fmap].
  destruct (decide (column r f = VString u)) as [Heq|Hneq].
  - rewrite Heq, (bool_decide_eq_true_2 _ eq_refl).
    rewrite bool_decide_eq_false_2.
    2:{ intros [?|[]%elem_of_nil]%elem_of_cons. done. }
    cbn. apply existsb_exists. destruct victims as [|v vs]; [done|].
    exists v. split; [by left|]. apply bool_decide_eq_true. apply Hv. by left.
  - rewrite (bool_decide_eq_false_2 _ Hneq). apply andb_false_intro2.
    apply not_true_is_false. intros (v & Hin & Hb)%existsb_exists.
    apply bool_decide_eq_true in Hb. apply list_elem_of_In in Hin.
    rewrite (Hv v Hin) in Hb. congruence.
Qed.

Lemma nullify_detached fk victims f u table :
  (∀ r, refersTo fk victims r = pointsTo f u r) →
  fkFields fk = [f] →
  nullify fk victims <$> table = detached f u table.
Proof.
  intros Heq Hf. unfold detached, nullify. apply list_fmap_ext.
  intros i r _. by rewrite Heq, Hf.
Qed.

Lemma filter_without fk victims f u table :
  (∀ r, refersTo fk victims r = pointsTo f u r) →
  List.filter (λ r, negb (refersTo fk victims r)) table = without f u table.
Proof. intros Heq. unfold without. apply filter_ext. intros r. by rewrite Heq. Qed.

Lemma existsb_pointsTo fk victims f u table :
  (∀ r, refersTo fk victims r = pointsTo f u r) →
  existsb (refersTo fk victims) table = existsb (pointsTo f u) table.
Proof. intros Heq. induction table as [|r t IH]; cbn; [done|]. by rewrite Heq, IH. Qed.

Lemma deleteRows_S s fuel parent victims db :
  deleteRows s (S fuel) parent victims db
  = foldl (λ acc fk, db ← acc; onDelete (deleteRows s fuel) victims db fk)
          (Ok (<[parent := removeRows victims (rows parent db)]> db))
          (referencing s parent).
Proof. reflexivity. Qed.

Lemma existsb_false_forall {A} (f : A → bool) l a :
  existsb f l = false → a ∈ l → f a = false.
Proof.
  intros H Hin. apply not_true_is_false. intros Hf.
  assert (existsb f l = true); [|congruence].
  apply existsb_exists. exists a. by rewrite <- list_elem_of_In.
Qed.

Lemma without_no_pointer f u table r :
  r ∈ without f u table → pointsTo f u r = false.
Proof.
  unfold without. intros [_ H]%list_elem_of_In%filter_In.
  by apply negb_true_iff.
Qed.

Lemma detached_no_pointer f u table r :
  r ∈ detached f u table → pointsTo f u r = false.
Proof.
  unfold detached. intros (r' & -> & _)%list_elem_of_fmap.
  destruct (pointsTo f u r') eqn:Hp; [|done].
  unfold pointsTo, column. by rewrite lookup_insert_eq.
Qed.

Lemma pointsTo_id u r :
  bool_decide (project ["id"] r = [VString u]) = pointsTo "id" u r.
Proof.
  unfold pointsTo. apply bool_decide_ext. cbn. split; congruence.
Qed.

Lemma build_reachable ops :
  bool_decide (run schema ops ∅ = Ok (build ops)) → reachable schema (build ops).
Proof. intros H%bool_decide_unpack. by exists ops. Qed.

(** The table of one foreign key after the delete, from what
    [foldl_onDelete_leaves] says of it. *)
Ltac table :=
  match goal with
  | H : rows ?t ?db' = afterDelete ?fk _ _,
    R : ∀ f, fkFields ?fk = [f] → _ |- rows ?t ?db' = _ =>
      rewrite H; unfold afterDelete; cbn [fkOnDelete];
      first [ apply filter_without, (R _ eq_refl)
            | apply nullify_detached; [apply (R _ eq_refl) | reflexivity]
            | reflexivity ]
  end.

(** C2, amended.  Deleting a user who exists acts on each dependent table as
    the schema declares it.  It is refused, with a foreign-key violation and no
    change, while a language member role, a translator note or a footnote
    points to the user.  Otherwise it goes through: the user's sessions, auth
    keys, email verifications and system roles are deleted with the user; the
    import jobs and gloss history entries of the user stay, with [userId] set
    to null; and afterwards no row of any of the nine tables points to the
    user. *)
Theorem delete_AuthUser_actions (db : Database) (u : string) :
  (∃ r, r ∈ rows "AuthUser" db ∧ column r "id" = VString u) →
  if holdsUser db u
  then Prisma.delete schema "AuthUser" [VString u] db = Err ForeignKeyViolation
  else ∃ db',
      Prisma.delete schema "AuthUser" [VString u] db = Ok db' ∧
      rows "AuthUser" db' = without "id" u (rows "AuthUser" db) ∧
      rows "AuthSession" db' = without "user_id" u (rows "AuthSession" db) ∧
      rows "AuthKey" db' = without "user_id" u (rows "AuthKey" db) ∧
      rows "UserEmailVerification" db'
      = without "userId" u (rows "UserEmailVerification" db) ∧
      rows "UserSystemRole" db' = without "userId" u (rows "UserSystemRole" db) ∧
      rows "LanguageImportJob" db'
      = detached "userId" u (rows "LanguageImportJob" db) ∧
      rows "GlossHistoryEntry" db'
      = detached "userId" u (rows "GlossHistoryEntry" db) ∧
      rows "LanguageMemberRole" db' = rows "LanguageMemberRole" db ∧
      rows "TranslatorNote" db' = rows "TranslatorNote" db ∧
      rows "Footnote" db' = rows "Footnote" db ∧
      (∀ t f r, (t, f) ∈ userDependents → r ∈ rows t db' → pointsTo f u r = false).
Proof.
  intros (r0 & Hr0 & Hid). unfold Prisma.delete.
  change (findModel schema "AuthUser") with (Some AuthUser).
  cbn [of_option mbind result_bind].
  change (primaryKey AuthUser) with ["id"].
  remember (List.filter (λ r, bool_decide (project ["id"] r = [VString u]))
              (rows "AuthUser" db)) as victims eqn:Hvictims.
  assert (∀ v, v ∈ victims → project ["id"] v = [VString u]) as Hv.
  { intros v Hin. rewrite Hvictims in Hin.
    apply list_elem_of_In, filter_In in Hin as [_ Hin].
    by apply bool_decide_eq_true in Hin. }
  assert (r0 ∈ victims) as Hin0.
  { rewrite Hvictims. apply list_elem_of_In, filter_In.
    split; [by apply list_elem_of_In|]. apply bool_decide_eq_true.
    cbn. by rewrite Hid. }
  assert (victims ≠ []) as Hne by (by intros ->; apply elem_of_nil in Hin0).
  assert (∀ fk f, fk ∈ referencing schema "AuthUser" → fkFields fk = [f] →
            ∀ r, refersTo fk victims r = pointsTo f u r) as Hrefers.
  { intros fk f Hfk Hf r. apply refersTo_pointsTo; [done| |done].
    rewrite referencing_AuthUser in Hfk.
    repeat (apply elem_of_cons in Hfk as [->|Hfk]); try apply Hv.
    by apply elem_of_nil in Hfk. }
  destruct victims as [|d ds] eqn:Hds; [done|]. rewrite <- Hds in *.
  change (S (length (models schema))) with (S (S 18)).
  rewrite deleteRows_S.
  set (db1 := <["AuthUser" := removeRows victims (rows "AuthUser" db)]> db).
  assert (∀ n, n ≠ "AuthUser" → rows n db1 = rows n db) as Hdb1.
  { intros n Hn. unfold db1. by rewrite rows_insert_ne. }
  pose proof (foldl_onDelete_leaves schema 18 victims
                (referencing schema "AuthUser") db1) as H.
  rewrite referencing_AuthUser in H, Hrefers |- *.
  assert (existsb (λ fk, blocks fk victims (rows (fkChild fk) db1))
            (referencing schema "AuthUser") = holdsUser db u) as Hblocks.
  { rewrite referencing_AuthUser. unfold holdsUser.
    cbn [existsb blocks fkOnDelete fkChild orb].
    rewrite !Hdb1 by done. rewrite orb_false_r, orb_assoc.
    f_equal; [f_equal|]; apply existsb_pointsTo, Hrefers; try done; in_list. }
  rewrite referencing_AuthUser in Hblocks. rewrite Hblocks in H. clear Hblocks.
  specialize (H ltac:(by apply (bool_decide_unpack _); vm_compute)).
  specialize (H ltac:(intros fk Hfk;
                      repeat (apply elem_of_cons in Hfk as [->|Hfk]);
                      [vm_compute; reflexivity .. | by apply elem_of_nil in Hfk])).
  destruct (holdsUser db u) eqn:Hheld; [exact H|].
  destruct H as (db' & Hrun & Hfks & Hframe). exists db'.
  assert (∀ fk, fk ∈ referencing schema "AuthUser" →
            rows (fkChild fk) db' = afterDelete fk victims (rows (fkChild fk) db))
    as Hafter.
  { rewrite referencing_AuthUser. intros fk Hfk. rewrite (Hfks fk Hfk).
    f_equal. apply Hdb1.
    repeat (apply elem_of_cons in Hfk as [->|Hfk]); try done.
    by apply elem_of_nil in Hfk. }
  rewrite referencing_AuthUser in Hafter.
  assert (rows "AuthUser" db' = without "id" u (rows "AuthUser" db)) as HU.
  { rewrite Hframe.
    - unfold db1. rewrite rows_insert_eq, Hvictims, removeRows_dependents.
      unfold without. apply filter_ext. intros r. by rewrite pointsTo_id.
    - by apply (bool_decide_unpack _); vm_compute. }
  assert (Forall (λ fk,
            rows (fkChild fk) db' = afterDelete fk victims (rows (fkChild fk) db)
            ∧ ∀ f, fkFields fk = [f] → ∀ r, refersTo fk victims r = pointsTo f u r)
            (referencing schema "AuthUser")) as Hall.
  { rewrite referencing_AuthUser. apply Forall_forall. intros fk Hfk.
    split; [by apply Hafter | intros; by apply Hrefers]. }
  rewrite referencing_AuthUser in Hall.
  repeat (let H := fresh "Htable" in let R := fresh "Hpoint" in
          apply Forall_cons in Hall as [[H R] Hall]; cbn [fkChild] in H).
  assert (rows "AuthSession" db' = without "user_id" u (rows "AuthSession" db))
    as H1 by table.
  assert (rows "AuthKey" db' = without "user_id" u (rows "AuthKey" db))
    as H2 by table.
  assert (rows "UserEmailVerification" db'
          = without "userId" u (rows "UserEmailVerification" db))
    as H3 by table.
  assert (rows "UserSystemRole" db' = without "userId" u (rows "UserSystemRole" db))
    as H4 by table.
  assert (rows "LanguageImportJob" db'
          = detached "userId" u (rows "LanguageImportJob" db))
    as H5 by table.
  assert (rows "GlossHistoryEntry" db'
          = detached "userId" u (rows "GlossHistoryEntry" db))
    as H6 by table.
  assert (rows "LanguageMemberRole" db' = rows "LanguageMemberRole" db)
    as H7 by table.
  assert (rows "TranslatorNote" db' = rows "TranslatorNote" db)
    as H8 by table.
  assert (rows "Footnote" db' = rows "Footnote" db)
    as H9 by table.
  split_and!; try done.
  intros t f r Ht Hr. unfold holdsUser in Hheld.
  apply orb_false_elim in Hheld as [Hheld Hfoot].
  apply orb_false_elim in Hheld as [Hrole Hnote].
  unfold userDependents in Ht.
  repeat (apply elem_of_cons in Ht as [[= -> ->]|Ht]);
    [..|by apply elem_of_nil in Ht].
  all: first [ rewrite H1 in Hr | rewrite H2 in Hr | rewrite H3 in Hr
             | rewrite H4 in Hr | rewrite H5 in Hr | rewrite H6 in Hr
             | rewrite H7 in Hr | rewrite H8 in Hr | rewrite H9 in Hr ].
  all: eauto using without_no_pointer, detached_no_pointer, existsb_false_forall.
Qed.


Lemma dbMember_reachable : reachable schema dbMember.
Proof. apply build_reachable. vm_compute. exact I. Qed.

Lemma dbImporter_reachable : reachable schema dbImporter.
Proof. apply build_reachable. vm_compute. exact I. Qed.

(** C2, as the claim has it, fails.  A user with a role on a language cannot
    be deleted at all, and deleting a user who started an import leaves the
    import job in its table. *)
Lemma user_delete_does_not_cascade_to_all :
  ¬ cascadesToAll dbMember "u1" ∧ ¬ cascadesToAll dbImporter "u1".
Proof.
  split; intros (db' & Hdel & Hall).
  - assert (Prisma.delete schema "AuthUser" [VString "u1"] dbMember
            = Err ForeignKeyViolation) as Hrun by by_compute.
    congruence.
  - assert (match Prisma.delete schema "AuthUser" [VString "u1"] dbImporter with
            | Ok db' =>
                bool_decide
                  (rows "LanguageImportJob" db'
                   = without "userId" "u1" (rows "LanguageImportJob" dbImporter))
            | Err _ => true
            end = false) as Hrun by (vm_compute; reflexivity).
    rewrite Hdel in Hrun. apply bool_decide_eq_false in Hrun. apply Hrun, Hall.
    unfold userDependents. in_list.
Qed.

Lemma delete_AuthUser_actions_witness :
  Prisma.delete schema "AuthUser" [VString "u1"] dbMember = Err ForeignKeyViolation
  ∧ ∃ db',
      Prisma.delete schema "AuthUser" [VString "u1"] dbImporter = Ok db' ∧
      rows "AuthUser" db' = [] ∧
      rows "AuthSession" db' = [] ∧
      project ["languageId"; "userId"] <$> rows "LanguageImportJob" db'
      = [[VString "l1"; VNull]].
Proof.
  split.
  - apply (delete_AuthUser_actions dbMember "u1").
    exists (row [("id", VString "u1"); ("name", VNull);
                 ("emailStatus", VEnum "UNVERIFIED")]).
    split; by_compute.
  - pose proof (delete_AuthUser_actions dbImporter "u1") as H.
    replace (holdsUser dbImporter "u1") with false in H by by_compute.
    destruct H as (db' & Hdel & HU & HS & _ & _ & _ & HJ & _).
    { exists (row [("id", VString "u1"); ("name", VNull);
                   ("emailStatus", VEnum "UNVERIFIED")]).
      split; by_compute. }
    exists db'. rewrite HU, HS, HJ. split; [done|]. split_and!; by_compute.
Defined.

(** ** C1, C6, C7: primary keys *)

Lemma NoDup_fmap_filter {A B} `{EqDecision B} (f : A → B) (k : B) (l : list A) :
  NoDup (f <$> l) → (length (List.filter (λ x, bool_decide (f x = k)) l) ≤ 1)%nat.
Proof.
  induction l as [|a l IH]; cbn [List.filter fmap list_fmap length]; [lia|].
  intros [Ha Hl]%NoDup_cons. specialize (IH Hl).
  destruct (decide (f a = k)) as [Heq|Hne].
  - rewrite (bool_decide_eq_true_2 _ Heq). cbn [length].
    assert (List.filter (λ x, bool_decide (f x = k)) l = []) as ->; [|cbn; lia].
    destruct (List.filter _ l) as [|b bs] eqn:Hf; [done|]. exfalso.
    assert (In b (List.filter (λ x, bool_decide (f x = k)) l)) as Hb
      by (rewrite Hf; by left).
    apply filter_In in Hb as [Hb Hk]. apply bool_decide_eq_true in Hk.
    apply Ha. rewrite Heq, <- Hk. by apply list_elem_of_fmap_2, list_elem_of_In.
  - by rewrite (bool_decide_eq_false_2 _ Hne).
Qed.

(** What the primary key of a model of the schema gives: in a database that a
    history has built, at most one row per key, and no [create] of a row whose
    key is there. *)
Lemma primary_key_enforced (m : Model) (db : Database) :
  findModel schema (modelName m) = Some m →
  forallb (mustBeGiven schema m) (primaryKey m) = true →
  reachable schema db →
  (∀ k, (length (List.filter (λ r, bool_decide (project (primaryKey m) r = k))
                            (rows (modelName m) db)) ≤ 1)%nat) ∧
  (∀ env data r,
     r ∈ rows (modelName m) db →
     project (primaryKey m) data = project (primaryKey m) r →
     (∃ e, Prisma.create schema env (modelName m) data db = Err e) ∧
     (∀ row, validate schema env m data = Ok row →
             Prisma.create schema env (modelName m) data db
             = Err UniqueConstraintViolation)).
Proof.
  intros Hm Hgiven Hreach. split.
  - intros k. apply NoDup_fmap_filter.
    eapply reachable_keysUnique; eauto using schema_setNullSafe. left.
  - intros env data r Hr Hkey. split.
    + eapply create_key_taken_rejected; eauto. left.
    + intros row Hrow. eapply create_key_taken; eauto; [left|].
      by rewrite (validate_key _ _ _ _ _ _ Hrow Hgiven).
Qed.

(** C1.  [Gloss], [MachineGloss], [TranslatorNote] and [Footnote] each have
    the primary key (wordId, languageId): in a database that a history has
    built, each of these tables holds at most one row for a word and a
    language, and creating a second row with the (wordId, languageId) of a row
    that is there is rejected, with a unique-constraint violation when the data
    are valid otherwise. *)
Theorem word_language_key (m : Model) (db : Database) :
  m ∈ [Gloss; MachineGloss; TranslatorNote; Footnote] →
  reachable schema db →
  primaryKey m = ["wordId"; "languageId"] ∧
  (∀ w l, (length (List.filter
                    (λ r, bool_decide (project ["wordId"; "languageId"] r = [w; l]))
                    (rows (modelName m) db)) ≤ 1)%nat) ∧
  (∀ env data r,
     r ∈ rows (modelName m) db →
     project ["wordId"; "languageId"] data = project ["wordId"; "languageId"] r →
     (∃ e, Prisma.create schema env (modelName m) data db = Err e) ∧
     (∀ row, validate schema env m data = Ok row →
             Prisma.create schema env (modelName m) data db
             = Err UniqueConstraintViolation)).
Proof.
  intros Hm Hreach.
  assert (primaryKey m = ["wordId"; "languageId"]
          ∧ findModel schema (modelName m) = Some m
          ∧ forallb (mustBeGiven schema m) (primaryKey m) = true)
    as (Hkey & Hfind & Hgiven).
  { repeat (apply elem_of_cons in Hm as [->|Hm]);
      [by vm_compute .. | by apply elem_of_nil in Hm]. }
  destruct (primary_key_enforced m db Hfind Hgiven Hreach) as [Hone Hdup].
  rewrite Hkey in Hone, Hdup. auto.
Qed.

Lemma dbGlossed_reachable : reachable schema dbGlossed.
Proof. apply build_reachable. vm_compute. exact I. Qed.

Lemma dbPolyglot_reachable : reachable schema dbPolyglot.
Proof. apply build_reachable. vm_compute. exact I. Qed.

Lemma schema_keys_unique_witness :
  length (rows "Language" dbPolyglot) = 2 ∧
  NoDup (project ["id"] <$> rows "Language" dbPolyglot) ∧
  NoDup (project ["code"] <$> rows "Language" dbPolyglot) ∧
  run schema (polyglot ++ [newLanguage german "es"]) ∅
  = Err UniqueConstraintViolation.
Proof.
  pose proof (schema_keys_unique dbPolyglot dbPolyglot_reachable
                "Language" Language) as Hkeys.
  change (uniqueKeys Language) with [["id"]; ["code"]] in Hkeys.
  split_and!.
  - by_compute.
  - apply Hkeys; [reflexivity | in_list].
  - apply Hkeys; [reflexivity | in_list].
  - by_compute.
Defined.

Lemma word_language_key_witness :
  Prisma.create schema env0 "Gloss"
    (row [("wordId", VString "0100100101"); ("languageId", VString "l1");
          ("gloss", VString "al principio"); ("state", VEnum "APPROVED")])
    dbGlossed
  = Err UniqueConstraintViolation.
Proof.
  pose (data := row [("wordId", VString "0100100101"); ("languageId", VString "l1");
                     ("gloss", VString "al principio"); ("state", VEnum "APPROVED")]).
  pose (r := row [("wordId", VString "0100100101"); ("languageId", VString "l1");
                  ("gloss", VString "en el principio");
                  ("state", VEnum "UNAPPROVED")]).
  assert (r ∈ rows "Gloss" dbGlossed) as Hr by by_compute.
  assert (project ["wordId"; "languageId"] data
          = project ["wordId"; "languageId"] r) as Hkey by by_compute.
  assert (validate schema env0 Gloss data = Ok data) as Hdata by by_compute.
  destruct (word_language_key Gloss dbGlossed ltac:(in_list) dbGlossed_reachable)
    as (_ & _ & Hdup).
  destruct (Hdup env0 data r Hr Hkey) as [_ Hrejected].
  exact (Hrejected data Hdata).
Defined.

(** C6.  [languageId] is the primary key of [LanguageImportJob], and the
    relation field [Language.importJob] is a single optional job, not a list:
    in a database that a history has built, a language has at most one job
    row, and creating a job for a language that has one is rejected. *)
Theorem import_job_per_language (db : Database) :
  reachable schema db →
  primaryKey LanguageImportJob = ["languageId"] ∧
  fieldOf Language "importJob"
  = Some (mkField "importJob" (TNamed "LanguageImportJob") Optional []) ∧
  (∀ l, (length (List.filter (pointsTo "languageId" l)
                             (rows "LanguageImportJob" db)) ≤ 1)%nat) ∧
  (∀ env data r,
     r ∈ rows "LanguageImportJob" db →
     column data "languageId" = column r "languageId" →
     (∃ e, Prisma.create schema env "LanguageImportJob" data db = Err e) ∧
     (∀ row, validate schema env LanguageImportJob data = Ok row →
             Prisma.create schema env "LanguageImportJob" data db
             = Err UniqueConstraintViolation)).
Proof.
  intros Hreach.
  destruct (primary_key_enforced LanguageImportJob db) as [Hone Hdup];
    [by vm_compute .. | done |].
  change (primaryKey LanguageImportJob) with ["languageId"] in *.
  change (modelName LanguageImportJob) with "LanguageImportJob" in *.
  split_and!; [done | done | |].
  - intros l. specialize (Hone [VString l]).
    erewrite filter_ext; [exact Hone|]. intros r. unfold pointsTo.
    apply bool_decide_ext. cbn. split; congruence.
  - intros env data r Hr Hkey. apply (Hdup env data r Hr). cbn. by rewrite Hkey.
Qed.

Lemma dbImporter_job :
  row [("languageId", VString "l1"); ("userId", VString "u1");
       ("startDate", VDateTime 0); ("endDate", VNull); ("succeeded", VNull)]
  ∈ rows "LanguageImportJob" dbImporter.
Proof. by_compute. Qed.

Lemma import_job_per_language_witness :
  Prisma.create schema env0 "LanguageImportJob"
    (row [("languageId", VString "l1"); ("startDate", VDateTime 7)]) dbImporter
  = Err UniqueConstraintViolation.
Proof.
  pose (data := row [("languageId", VString "l1"); ("startDate", VDateTime 7)]).
  pose (job := row [("languageId", VString "l1"); ("userId", VNull);
                    ("startDate", VDateTime 7); ("endDate", VNull);
                    ("succeeded", VNull)]).
  assert (validate schema env0 LanguageImportJob data = Ok job) as Hdata
    by by_compute.
  destruct (import_job_per_language dbImporter dbImporter_reachable)
    as (_ & _ & _ & Hdup).
  destruct (Hdup env0 data _ dbImporter_job) as [_ Hrejected]; [by_compute|].
  exact (Hrejected job Hdata).
Defined.

(** *** Creating a row *)

Lemma fkSatisfied_intro db new fk p :
  p ∈ rows (fkParent fk) db →
  project (fkReferences fk) p = project (fkFields fk) new →
  fkSatisfied db new fk = true.
Proof.
  intros Hp Heq. unfold fkSatisfied. apply orb_true_intro. right.
  apply existsb_exists. exists p. split; [by apply list_elem_of_In|].
  by apply bool_decide_eq_true.
Qed.

Lemma violatesUnique_false_intro m new table :
  (∀ key r, key ∈ uniqueKeys m → r ∈ table → project key new ≠ project key r) →
  violatesUnique m new table = false.
Proof.
  intros H. apply not_true_is_false.
  intros (key & Hkey & (r & Hr & Heq)%existsb_exists)%existsb_exists.
  apply bool_decide_eq_true in Heq.
  by apply (H key r); [apply list_elem_of_In..|].
Qed.

(** C7.  The primary key of [LanguageMemberRole] is (languageId, userId,
    role).  A user who holds role [r1] on a language can be given another role
    [r2] on it, and then holds both; giving [r1] again is rejected. *)
Theorem member_roles_additive (env : DbEnv) (db : Database) (l u r1 r2 : string) :
  let key r := [VString l; VString u; VEnum r] in
  let grant r := row [("languageId", VString l); ("userId", VString u);
                      ("role", VEnum r)] in
  let held := project ["languageId"; "userId"; "role"]
                <$> rows "LanguageMemberRole" db in
  r1 ∈ enumValues LanguageRole →
  r2 ∈ enumValues LanguageRole →
  (∃ x, x ∈ rows "AuthUser" db ∧ column x "id" = VString u) →
  (∃ x, x ∈ rows "Language" db ∧ column x "id" = VString l) →
  key r1 ∈ held →
  key r2 ∉ held →
  primaryKey LanguageMemberRole = ["languageId"; "userId"; "role"] ∧
  Prisma.create schema env "LanguageMemberRole" (grant r1) db
  = Err UniqueConstraintViolation ∧
  ∃ db',
    Prisma.create schema env "LanguageMemberRole" (grant r2) db = Ok db' ∧
    rows "LanguageMemberRole" db' = rows "LanguageMemberRole" db ++ [grant r2] ∧
    key r1 ∈ project ["languageId"; "userId"; "role"]
               <$> rows "LanguageMemberRole" db' ∧
    key r2 ∈ project ["languageId"; "userId"; "role"]
               <$> rows "LanguageMemberRole" db'.
Proof.
  intros key grant held Hr1 Hr2 (xu & Hxu & Hu) (xl & Hxl & Hl) Hheld Hfree.
  assert (∀ r, r ∈ enumValues LanguageRole →
            validate schema env LanguageMemberRole (grant r) = Ok (grant r))
    as Hvalid.
  { intros r Hr. cbn in Hr.
    repeat (apply elem_of_cons in Hr as [->|Hr]);
      [by_vm .. | by apply elem_of_nil in Hr]. }
  assert (∀ r, project ["languageId"; "userId"; "role"] (grant r) = key r)
    as Hkey by (intros r; by_vm).
  split; [done|]. split.
  - apply list_elem_of_fmap in Hheld as (x & Hx & Hin).
    eapply (create_key_taken schema env "LanguageMemberRole" (grant r1) db
              LanguageMemberRole (grant r1) _ x); eauto; [left|].
    by rewrite Hkey.
  - eexists. split.
    + apply (create_Ok schema env "LanguageMemberRole" (grant r2) db
               LanguageMemberRole (grant r2)); [done|auto| |].
      * apply violatesUnique_false_intro. intros k r Hk Hr Heq.
        change (uniqueKeys LanguageMemberRole)
          with [["languageId"; "userId"; "role"]] in Hk.
        apply list_elem_of_singleton in Hk as ->. apply Hfree.
        unfold held. rewrite <- Hkey, Heq. by apply list_elem_of_fmap_2.
      * change (foreignKeys LanguageMemberRole)
          with [mkForeignKey "LanguageMemberRole" ["userId"] "AuthUser" ["id"] Restrict;
                mkForeignKey "LanguageMemberRole" ["languageId"] "Language" ["id"]
                  Restrict].
        cbn [forallb].
        apply andb_true_intro; split; [|apply andb_true_intro; split; [|done]].
        -- apply (fkSatisfied_intro db _ _ xu); [exact Hxu|].
           change (project _ xu) with [column xu "id"]. rewrite Hu. by_vm.
        -- apply (fkSatisfied_intro db _ _ xl); [exact Hxl|].
           change (project _ xl) with [column xl "id"]. rewrite Hl. by_vm.
    + rewrite rows_insert_eq. split; [done|]. rewrite fmap_app, !elem_of_app.
      split; [by left|]. right. rewrite list_fmap_singleton, Hkey. left.
Qed.

Lemma member_roles_additive_witness :
  ∃ db',
    Prisma.create schema env0 "LanguageMemberRole"
      (row [("languageId", VString "l1"); ("userId", VString "u1");
            ("role", VEnum "VIEWER")]) dbMember = Ok db' ∧
    project ["languageId"; "userId"; "role"] <$> rows "LanguageMemberRole" db'
    = [ [VString "l1"; VString "u1"; VEnum "ADMIN"];
        [VString "l1"; VString "u1"; VEnum "VIEWER"] ].
Proof.
  destruct (member_roles_additive env0 dbMember "l1" "u1" "ADMIN" "VIEWER")
    as (_ & _ & db' & Hcreate & Hrows & _).
  - in_list.
  - in_list.
  - exists (row [("id", VString "u1"); ("name", VNull);
                 ("emailStatus", VEnum "UNVERIFIED")]).
    split; by_compute.
  - exists (row [("id", VString "l1"); ("code", VString "es");
                 ("name", VString "es"); ("font", VString "Noto Sans");
                 ("textDirection", VEnum "ltr");
                 ("bibleTranslationIds", VStringList [])]).
    split; by_compute.
  - by_compute.
  - by_compute.
  - exists db'. split; [exact Hcreate|]. rewrite Hrows. by_compute.
Defined.

(** ** C10: a new gloss *)

Lemma complete_lookup s env data fs row name :
  complete s env data fs = Ok row → name ∈ fieldName <$> fs →
  ∃ f v, f ∈ fs ∧ fieldName f = name ∧ fieldValue s env data f = Ok v
         ∧ row !! name = Some v.
Proof.
  revert row. induction fs as [|f fs IH]; intros row Hc Hin.
  - by apply elem_of_nil in Hin.
  - cbn [complete] in Hc.
    apply bind_Ok in Hc as (w & Hw & Hc).
    apply bind_Ok in Hc as (r & Hr & [= <-]).
    destruct (decide (fieldName f = name)) as [Heq|Hne].
    + exists f, w. rewrite <- Heq, lookup_insert_eq. split_and!; [left|done..].
    + rewrite fmap_cons in Hin. apply elem_of_cons in Hin as [?|Hin]; [congruence|].
      destruct (IH r Hr Hin) as (g & v & Hg & Hn & Hv & Hrow).
      exists g, v. rewrite lookup_insert_ne by done. split_and!; [by right|done..].
Qed.

(** The columns of a validated [Gloss]: the state is the one given, else
    [UNAPPROVED]; the text is the one given, else null. *)
Lemma validate_Gloss env data stored :
  validate schema env Gloss data = Ok stored →
  column stored "state" = default (VEnum "UNAPPROVED") (data !! "state") ∧
  column stored "gloss" = column data "gloss" ∧
  project ["wordId"; "languageId"] stored = project ["wordId"; "languageId"] data.
Proof.
  intros Hv. split_and!.
  - unfold validate in Hv. apply bind_Ok in Hv as (_ & _ & Hc).
    destruct (complete_lookup _ _ _ _ _ "state" Hc) as (f & v & Hf & Hn & Hfv & Hrow);
      [by_compute|].
    rewrite (column_lookup _ _ _ Hrow). vm_compute in Hf.
    repeat (apply elem_of_cons in Hf as [->|Hf]); try discriminate Hn;
      [|by apply elem_of_nil in Hf].
    unfold fieldValue in Hfv. cbn [fieldName] in Hfv.
    destruct (data !! "state") as [given|]; cbn in Hfv |- *.
    + destruct (wellTyped _ _ _); congruence.
    + congruence.
  - unfold validate in Hv. apply bind_Ok in Hv as (_ & _ & Hc).
    destruct (complete_lookup _ _ _ _ _ "gloss" Hc) as (f & v & Hf & Hn & Hfv & Hrow);
      [by_compute|].
    rewrite (column_lookup _ _ _ Hrow). vm_compute in Hf.
    repeat (apply elem_of_cons in Hf as [->|Hf]); try discriminate Hn;
      [|by apply elem_of_nil in Hf].
    unfold fieldValue, column in Hfv |- *. cbn [fieldName] in Hfv.
    destruct (data !! "gloss") as [given|]; cbn in Hfv |- *.
    + destruct (wellTyped _ _ _); congruence.
    + congruence.
  - apply (validate_key schema env Gloss data stored _ Hv). by_compute.
Qed.

(** C10.  A [Gloss] created without a state is stored with state
    [UNAPPROVED], the default of the schema, whatever else the create gives:
    the word, the language and the text of the stored row are those given.
    The text is optional.  For every word and language that exist and have no
    gloss yet, the create with a text and the create without one both go
    through, and the one without a text stores a row that has an approval
    state and a null text. *)
Theorem gloss_created_unapproved (env : DbEnv) (db : Database) :
  (∀ data db',
     data !! "state" = None →
     Prisma.create schema env "Gloss" data db = Ok db' →
     ∃ stored,
       db' = <["Gloss" := rows "Gloss" db ++ [stored]]> db ∧
       column stored "state" = VEnum "UNAPPROVED" ∧
       column stored "gloss" = column data "gloss" ∧
       project ["wordId"; "languageId"] stored
       = project ["wordId"; "languageId"] data) ∧
  (∀ (w l : string) (text : option string),
     let data := row ([("wordId", VString w); ("languageId", VString l)]
                      ++ match text with
                         | Some g => [("gloss", VString g)]
                         | None => []
                         end) in
     let stored := row [("wordId", VString w); ("languageId", VString l);
                        ("gloss", from_option VString VNull text);
                        ("state", VEnum "UNAPPROVED")] in
     (∃ x, x ∈ rows "Word" db ∧ column x "id" = VString w) →
     (∃ x, x ∈ rows "Language" db ∧ column x "id" = VString l) →
     [VString w; VString l] ∉ project ["wordId"; "languageId"] <$> rows "Gloss" db →
     validate schema env Gloss data = Ok stored ∧
     Prisma.create schema env "Gloss" data db
     = Ok (<["Gloss" := rows "Gloss" db ++ [stored]]> db) ∧
     column stored "state" = VEnum "UNAPPROVED" ∧
     column stored "gloss" = from_option VString VNull text).
Proof.
  split.
  { intros data db' Hstate Hcreate.
    apply create_inv in Hcreate as (m & stored & Hm & Hv & _ & _ & ->).
    assert (findModel schema "Gloss" = Some Gloss) as Hfind by reflexivity.
    assert (m = Gloss) as -> by congruence.
    destruct (validate_Gloss env data stored Hv) as (Hs & Hg & Hk).
    rewrite Hstate in Hs. by exists stored. }
  intros w l text data stored (xw & Hxw & Hw) (xl & Hxl & Hl) Hfree.
  assert (validate schema env Gloss data = Ok stored) as Hvalid
    by (destruct text; by_vm).
  split_and!; [done | | by_vm | destruct text; by_vm].
  apply (create_Ok schema env "Gloss" data db Gloss stored); [done|done| |].
  - apply violatesUnique_false_intro. intros k r Hk Hr Heq.
    change (uniqueKeys Gloss) with [["wordId"; "languageId"]] in Hk.
    apply list_elem_of_singleton in Hk as ->. apply Hfree.
    replace [VString w; VString l]
      with (project ["wordId"; "languageId"] stored) by by_vm.
    rewrite Heq. by apply list_elem_of_fmap_2.
  - change (foreignKeys Gloss)
      with [mkForeignKey "Gloss" ["wordId"] "Word" ["id"] Restrict;
            mkForeignKey "Gloss" ["languageId"] "Language" ["id"] Restrict].
    cbn [forallb].
    apply andb_true_intro; split; [|apply andb_true_intro; split; [|done]].
    + apply (fkSatisfied_intro db _ _ xw); [exact Hxw|].
      change (project _ xw) with [column xw "id"]. rewrite Hw. by_vm.
    + apply (fkSatisfied_intro db _ _ xl); [exact Hxl|].
      change (project _ xl) with [column xl "id"]. rewrite Hl. by_vm.
Qed.

Lemma gloss_created_unapproved_witness :
  (∃ db',
     Prisma.create schema env0 "Gloss"
       (row [("wordId", VString "0100100101"); ("languageId", VString french);
             ("gloss", VString "au commencement")])
       dbPolyglot = Ok db' ∧
     project ["wordId"; "languageId"; "gloss"; "state"] <$> rows "Gloss" db'
     = [ [VString "0100100101"; VString spanish; VString "en el principio";
          VEnum "UNAPPROVED"];
         [VString "0100100101"; VString french; VString "au commencement";
          VEnum "UNAPPROVED"] ]) ∧
  (∃ db',
     Prisma.create schema env0 "Gloss"
       (row [("wordId", VString "0100100101"); ("languageId", VString french)])
       dbPolyglot = Ok db' ∧
     project ["wordId"; "languageId"; "gloss"; "state"] <$> rows "Gloss" db'
     = [ [VString "0100100101"; VString spanish; VString "en el principio";
          VEnum "UNAPPROVED"];
         [VString "0100100101"; VString french; VNull; VEnum "UNAPPROVED"] ]).
Proof.
  destruct (gloss_created_unapproved env0 dbPolyglot) as [_ Hfree].
  assert (∃ x, x ∈ rows "Word" dbPolyglot ∧ column x "id" = VString "0100100101")
    as Hword.
  { exists (row [("id", VString "0100100101"); ("text", VString "bereshit");
                 ("verseId", VString "01001001"); ("formId", VString "H7225-1")]).
    split; by_compute. }
  assert (∃ x, x ∈ rows "Language" dbPolyglot ∧ column x "id" = VString french)
    as Hlanguage.
  { exists (row [("id", VString french); ("code", VString "fr");
                 ("name", VString "fr"); ("font", VString "Noto Sans");
                 ("textDirection", VEnum "ltr");
                 ("bibleTranslationIds", VStringList [])]).
    split; by_compute. }
  split.
  - destruct (Hfree "0100100101" french (Some "au commencement") Hword Hlanguage)
      as (_ & Hcreate & _); [by_compute|].
    eexists. split; [exact Hcreate|]. rewrite rows_insert_eq. by_compute.
  - destruct (Hfree "0100100101" french None Hword Hlanguage)
      as (_ & Hcreate & _); [by_compute|].
    eexists. split; [exact Hcreate|]. rewrite rows_insert_eq. by_compute.
Defined.

(** ** The depth of a delete *)

Section Depth.
Context (s : Schema).

Lemma foldl_onDelete_depth cascade victims fks acc :
  acc ≠ Err DepthExceeded →
  (∀ fk db, fk ∈ fks → fkOnDelete fk = Cascade →
     ∀ d, cascade (fkChild fk) d db ≠ Err DepthExceeded) →
  foldl (λ acc fk, db ← acc; onDelete cascade victims db fk) acc fks
  ≠ Err DepthExceeded.
Proof.
  revert acc. induction fks as [|fk fks IH]; intros acc Hacc Hc; [done|].
  cbn [foldl]. apply IH.
  - destruct acc as [db|e]; [|done]. cbn [mbind result_bind]. unfold onDelete.
    destruct (List.filter _ _); [done|].
    destruct (fkOnDelete fk) eqn:Hact; try done. apply Hc; [left|done].
  - intros fk' db Hin. apply Hc. by right.
Qed.

Lemma deleteRows_within k fuel parent victims db :
  cascadeWithin s k parent = true → k < fuel →
  deleteRows s fuel parent victims db ≠ Err DepthExceeded.
Proof.
  revert fuel parent victims db.
  induction k as [|k IH]; intros [|fuel] parent victims db Hk Hlt; try lia;
    rewrite deleteRows_S; apply foldl_onDelete_depth; try done;
    intros fk db' Hfk Hact d; cbn [cascadeWithin] in Hk;
    rewrite forallb_forall in Hk;
    specialize (Hk fk (proj1 (list_elem_of_In _ _) Hfk)); rewrite Hact in Hk.
  - done.
  - apply IH; [done|lia].
Qed.

End Depth.

Lemma findModel_Some s n m :
  findModel s n = Some m → m ∈ models s ∧ modelName m = n.
Proof.
  unfold findModel. intros [Hin Hn]%find_some.
  split; [by apply list_elem_of_In | by apply bool_decide_eq_true in Hn].
Qed.

(** On this schema a delete never uses up its depth: whatever it returns, it
    is the outcome of the delete. *)
Lemma delete_within_depth n key db :
  Prisma.delete schema n key db ≠ Err DepthExceeded.
Proof.
  unfold Prisma.delete. destruct (findModel schema n) as [m|] eqn:Hm; [|done].
  cbn [of_option mbind result_bind]. destruct (List.filter _ _); [done|].
  apply (deleteRows_within schema 1); [|cbn; lia].
  apply findModel_Some in Hm as [Hin <-].
  assert (forallb (λ m, cascadeWithin schema 1 (modelName m)) (models schema)
          = true) as Hall by (vm_compute; reflexivity).
  rewrite forallb_forall in Hall. by apply Hall, list_elem_of_In.
Qed.

(** * More about the database operations *)

Section Integrity.
Context (s : Schema).

Lemma fkSatisfied_spec db r fk :
  fkSatisfied db r fk = true ↔
  ((VNull ∈ project (fkFields fk) r) ∨
   (∃ p, p ∈ rows (fkParent fk) db ∧
         project (fkReferences fk) p = project (fkFields fk) r)).
Proof.
  unfold fkSatisfied. rewrite orb_true_iff, bool_decide_eq_true, existsb_exists.
  apply or_iff_compat_l. split.
  - intros (p & Hp & Heq). exists p.
    split; [by apply list_elem_of_In | by apply bool_decide_eq_true in Heq].
  - intros (p & Hp & Heq). exists p.
    split; [by apply list_elem_of_In | by apply bool_decide_eq_true].
Qed.

Lemma refersTo_spec fk victims r :
  refersTo fk victims r = true ↔
  ((VNull ∉ project (fkFields fk) r) ∧
   (∃ v, v ∈ victims ∧ project (fkReferences fk) v = project (fkFields fk) r)).
Proof.
  unfold refersTo.
  rewrite andb_true_iff, negb_true_iff, bool_decide_eq_false, existsb_exists.
  apply and_iff_compat_l. split.
  - intros (p & Hp & Heq). exists p.
    split; [by apply list_elem_of_In | by apply bool_decide_eq_true in Heq].
  - intros (p & Hp & Heq). exists p.
    split; [by apply list_elem_of_In | by apply bool_decide_eq_true].
Qed.

Lemma foreignKeys_child m fk : fk ∈ foreignKeys m → fkChild fk = modelName m.
Proof.
  unfold foreignKeys. intros (f & _ & Hf)%list_elem_of_omap.
  unfold foreignKeyOf in Hf. destruct (fieldType f); try done.
  apply head_Some_elem_of, list_elem_of_omap in Hf as (a & _ & Ha).
  destruct a; try done. by injection Ha as <-.
Qed.

Lemma foreignKeys_referencing n m fk :
  findModel s n = Some m → fk ∈ foreignKeys m →
  fk ∈ referencing s (fkParent fk) ∧ fkChild fk = n.
Proof.
  intros [Hm Hn]%findModel_Some Hfk. split.
  - unfold referencing. apply list_elem_of_In, filter_In. split.
    + apply in_concat. exists (foreignKeys m).
      split; apply list_elem_of_In; [by apply list_elem_of_fmap_2 | done].
    + by apply bool_decide_eq_true.
  - rewrite <- Hn. by apply foreignKeys_child.
Qed.

Lemma fkSatisfied_mono db db' fks r :
  (∀ n p, p ∈ rows n db → p ∈ rows n db') →
  forallb (fkSatisfied db r) fks = true →
  forallb (fkSatisfied db' r) fks = true.
Proof.
  intros Hsub. rewrite !forallb_forall. intros H fk Hfk.
  specialize (H fk Hfk). apply fkSatisfied_spec in H as [H|(p & Hp & Heq)];
    apply fkSatisfied_spec; [by left | right; eauto].
Qed.

(** [create] keeps every foreign key pointing to a row. *)
Lemma create_integrity env n data db db' :
  Prisma.create s env n data db = Ok db' →
  refIntegrity s db → refIntegrity s db'.
Proof.
  intros (m & row & Hm & _ & _ & Hfk & ->)%create_inv Hri n0 m0 r0 Hm0 Hr0.
  assert (∀ n' p, p ∈ rows n' db → p ∈ rows n' (<[n := rows n db ++ [row]]> db))
    as Hsub.
  { intros n' p Hp. rewrite rows_insert. destruct (decide (n = n')) as [<-|]; [|done].
    apply elem_of_app. by left. }
  apply (fkSatisfied_mono db); [done|].
  rewrite rows_insert in Hr0. destruct (decide (n = n0)) as [<-|]; [|by eapply Hri].
  apply elem_of_app in Hr0 as [Hr0|Hr0%list_elem_of_singleton]; [by eapply Hri|].
  subst r0. congruence.
Qed.

(** *** A delete that every foreign key forbids *)

Lemma foldl_onDelete_restrict cascade victims fks db :
  (∀ fk, fk ∈ fks → fkOnDelete fk = Restrict ∨ fkOnDelete fk = NoAction) →
  foldl (λ acc fk, db ← acc; onDelete cascade victims db fk) (Ok db) fks
  = if existsb (λ fk, existsb (refersTo fk victims) (rows (fkChild fk) db)) fks
    then Err ForeignKeyViolation else Ok db.
Proof.
  induction fks as [|fk fks IH]; intros Hact; [done|].
  cbn [foldl existsb mbind result_bind]. unfold onDelete at 2.
  destruct (List.filter _ _) as [|d ds] eqn:Hd.
  - rewrite (filter_nil_existsb _ _ Hd). cbn [orb]. apply IH.
    intros ??. apply Hact. by right.
  - rewrite (filter_cons_existsb _ _ _ _ Hd). cbn [orb].
    destruct (Hact fk ltac:(left)) as [-> | ->]; apply foldl_Err.
Qed.

Lemma restricts_spec parent fk :
  restricts s parent = true → fk ∈ referencing s parent →
  (fkOnDelete fk = Restrict ∨ fkOnDelete fk = NoAction) ∧ fkChild fk ≠ parent.
Proof.
  unfold restricts. rewrite forallb_forall. intros H Hfk.
  specialize (H fk (proj1 (list_elem_of_In _ _) Hfk)).
  destruct (fkOnDelete fk); try done;
    apply negb_true_iff, bool_decide_eq_false in H; auto.
Qed.

Lemma existsb_ext_in {A} (f g : A → bool) l :
  (∀ a, a ∈ l → f a = g a) → existsb f l = existsb g l.
Proof.
  induction l as [|a l IH]; intros H; cbn; [done|].
  rewrite (H a) by left. f_equal. apply IH. intros ??. apply H. by right.
Qed.

(** When every foreign key that points to a table forbids its delete, the
    delete of rows that are pointed to is refused, and the delete of rows that
    are not takes them out and touches nothing else. *)
Lemma deleteRows_restricted fuel parent victims db :
  restricts s parent = true →
  deleteRows s (S fuel) parent victims db
  = if existsb (λ fk, existsb (refersTo fk victims) (rows (fkChild fk) db))
               (referencing s parent)
    then Err ForeignKeyViolation
    else Ok (<[parent := removeRows victims (rows parent db)]> db).
Proof.
  intros Hr. rewrite deleteRows_S, foldl_onDelete_restrict.
  - erewrite existsb_ext_in; [done|]. intros fk Hfk. cbn beta.
    rewrite rows_insert_ne; [done|].
    by destruct (restricts_spec parent fk Hr Hfk) as [_ ?].
  - intros fk Hfk. by destruct (restricts_spec parent fk Hr Hfk).
Qed.

Lemma removeRows_elem victims table r :
  r ∈ removeRows victims table ↔ r ∈ table ∧ r ∉ victims.
Proof.
  unfold removeRows. rewrite list_elem_of_In, filter_In, <- list_elem_of_In.
  by rewrite negb_true_iff, bool_decide_eq_false.
Qed.

Lemma deleteRows_restricted_integrity fuel parent victims db db' :
  restricts s parent = true →
  deleteRows s (S fuel) parent victims db = Ok db' →
  refIntegrity s db → refIntegrity s db'.
Proof.
  intros Hr Hdel Hri. rewrite deleteRows_restricted in Hdel by done.
  destruct (existsb _ _) eqn:Hblocked; [done|]. injection Hdel as <-.
  assert (∀ n r, r ∈ rows n (<[parent := removeRows victims (rows parent db)]> db)
                 → r ∈ rows n db) as Hsub.
  { intros n r. rewrite rows_insert. destruct (decide (parent = n)) as [<-|]; [|done].
    by intros [? _]%removeRows_elem. }
  intros n m r Hm Hin. pose proof (Hri n m r Hm (Hsub _ _ Hin)) as Hsat.
  rewrite forallb_forall in Hsat |- *. intros fk Hfk. specialize (Hsat fk Hfk).
  apply list_elem_of_In in Hfk.
  apply fkSatisfied_spec in Hsat as [Hnull|(p & Hp & Heq)];
    apply fkSatisfied_spec; [by left|].
  destruct (decide (VNull ∈ project (fkFields fk) r)) as [|Hnn]; [by left|].
  right. exists p. split; [|done]. rewrite rows_insert.
  destruct (decide (parent = fkParent fk)) as [->|]; [|done].
  apply removeRows_elem. split; [done|]. intros Hv.
  destruct (foreignKeys_referencing n m fk Hm Hfk) as [Href Hchild].
  pose proof (existsb_false_forall _ _ fk Hblocked Href) as Hno. cbn beta in Hno.
  rewrite Hchild in Hno.
  assert (refersTo fk victims r = true) as Hyes
    by (apply refersTo_spec; eauto).
  rewrite (existsb_false_forall _ _ r Hno (Hsub _ _ Hin)) in Hyes. done.
Qed.

(** *** A delete whose dependent tables nothing points to *)

Lemma NoDup_fmap_elem_inj {A B} (f : A → B) (l : list A) x y :
  NoDup (f <$> l) → x ∈ l → y ∈ l → f x = f y → x = y.
Proof.
  induction l as [|a l IH]; [by intros _ ?%elem_of_nil|].
  rewrite fmap_cons. intros [Ha Hl]%NoDup_cons Hx Hy Heq.
  apply elem_of_cons in Hx as [->|Hx], Hy as [->|Hy]; auto.
  - exfalso. apply Ha. rewrite Heq. by apply list_elem_of_fmap_2.
  - exfalso. apply Ha. rewrite <- Heq. by apply list_elem_of_fmap_2.
Qed.

Lemma project_setNull_cases fs gs r :
  VNull ∈ project fs (setNull gs r) ∨ project fs (setNull gs r) = project fs r.
Proof.
  unfold project. induction fs as [|f fs IH]; [by right|]. rewrite !fmap_cons.
  destruct (decide (f ∈ gs)) as [Hf|Hf].
  - left. rewrite (column_setNull_eq gs r f Hf). left.
  - rewrite (column_setNull_ne gs r f Hf). destruct IH as [IH | ->]; [|by right].
    left. by right.
Qed.

Lemma project_setNull_self f fs r : VNull ∈ project (f :: fs) (setNull (f :: fs) r).
Proof.
  unfold project. rewrite fmap_cons, column_setNull_eq by left. left.
Qed.

Lemma leafChildren_spec parent :
  leafChildren s parent = true →
  NoDup (fkChild <$> referencing s parent) ∧
  (parent ∉ fkChild <$> referencing s parent) ∧
  (∀ fk, fk ∈ referencing s parent →
         referencing s (fkChild fk) = [] ∧ fkFields fk ≠ []).
Proof.
  unfold leafChildren. intros [[Hnd Hself]%andb_prop Hleaf]%andb_prop.
  apply bool_decide_eq_true in Hnd, Hself. split_and!; [done..|].
  intros fk Hfk. rewrite forallb_forall in Hleaf.
  specialize (Hleaf fk (proj1 (list_elem_of_In _ _) Hfk)).
  destruct (referencing s (fkChild fk)); [|done].
  by destruct (fkFields fk).
Qed.

Lemma deleteRows_leaves_integrity fuel parent victims db db' :
  leafChildren s parent = true →
  deleteRows s (S (S fuel)) parent victims db = Ok db' →
  refIntegrity s db → refIntegrity s db'.
Proof.
  intros (Hnd & Hself & Hleaf)%leafChildren_spec Hdel Hri.
  rewrite deleteRows_S in Hdel.
  set (db1 := <[parent := removeRows victims (rows parent db)]> db) in Hdel.
  pose proof (foldl_onDelete_leaves s fuel victims (referencing s parent) db1
                Hnd (λ fk Hfk, proj1 (Hleaf fk Hfk))) as H.
  destruct (existsb _ _) eqn:Hblocked; [congruence|].
  destruct H as (db2 & Hrun & Hfks & Hframe).
  rewrite Hrun in Hdel. injection Hdel as ->.
  assert (∀ n, n ≠ parent → rows n db1 = rows n db) as Hdb1
    by (intros n Hn; unfold db1; by rewrite rows_insert_ne).
  assert (∀ fk, fk ∈ referencing s parent → fkChild fk ≠ parent) as Hchild.
  { intros fk Hfk Heq. apply Hself, list_elem_of_fmap. by exists fk. }
  (* where the rows of the new tables come from *)
  assert (∀ n r', r' ∈ rows n db' →
            ∃ r, r ∈ rows n db ∧
                 (r' = r ∨ ∃ fk, fk ∈ referencing s parent ∧ fkChild fk = n
                                 ∧ r' = setNull (fkFields fk) r)) as Hfrom.
  { intros n r' Hr'.
    destruct (decide (n ∈ fkChild <$> referencing s parent)) as [Hn|Hn].
    - apply list_elem_of_fmap in Hn as (fk & -> & Hfk).
      rewrite (Hfks fk Hfk), (Hdb1 _ (Hchild fk Hfk)) in Hr'.
      unfold afterDelete in Hr'. destruct (fkOnDelete fk).
      + apply list_elem_of_In, filter_In in Hr' as [Hr' _].
        apply list_elem_of_In in Hr'. eauto.
      + eauto.
      + eauto.
      + apply list_elem_of_fmap in Hr' as (r & -> & Hr). exists r. split; [done|].
        unfold nullify. destruct (refersTo fk victims r); [|by left].
        right. by exists fk.
    - rewrite (Hframe n Hn) in Hr'. exists r'. split; [|by left].
      unfold db1 in Hr'. rewrite rows_insert in Hr'.
      destruct (decide (parent = n)); [|done].
      subst. by apply removeRows_elem in Hr' as [? _]. }
  (* no row points to a victim any more *)
  assert (∀ fk r', fk ∈ referencing s parent → r' ∈ rows (fkChild fk) db' →
            refersTo fk victims r' = false) as Hfree.
  { intros fk r' Hfk Hr'.
    rewrite (Hfks fk Hfk), (Hdb1 _ (Hchild fk Hfk)) in Hr'.
    pose proof (existsb_false_forall _ _ fk Hblocked Hfk) as Hb. cbn beta in Hb.
    rewrite (Hdb1 _ (Hchild fk Hfk)) in Hb.
    unfold afterDelete in Hr'. unfold blocks in Hb.
    destruct (fkOnDelete fk).
    - apply list_elem_of_In, filter_In in Hr' as [_ Hr'].
      by apply negb_true_iff in Hr'.
    - eauto using existsb_false_forall.
    - eauto using existsb_false_forall.
    - apply list_elem_of_fmap in Hr' as (r & -> & Hr). unfold nullify.
      destruct (refersTo fk victims r) eqn:Hrefers; [|done].
      apply not_true_is_false. intros [Hnn _]%refersTo_spec. apply Hnn.
      destruct (fkFields fk) as [|f fs] eqn:Hf; [by destruct (Hleaf fk Hfk)|].
      apply project_setNull_self. }
  intros n m r' Hm Hr'. apply forallb_forall. intros fk' Hfk'.
  apply list_elem_of_In in Hfk'.
  destruct (foreignKeys_referencing n m fk' Hm Hfk') as [Href Hn].
  apply fkSatisfied_spec.
  destruct (decide (VNull ∈ project (fkFields fk') r')) as [|Hnn]; [by left|].
  right.
  assert (fkParent fk' ∉ fkChild <$> referencing s parent) as Hq.
  { intros (fk & Heq & Hfk)%list_elem_of_fmap.
    destruct (Hleaf fk Hfk) as [Hnone _]. rewrite Heq, Hnone in Href.
    by apply elem_of_nil in Href. }
  destruct (Hfrom n r' Hr') as (r & Hr & Horigin).
  pose proof (Hri n m r Hm Hr) as Hsat. rewrite forallb_forall in Hsat.
  specialize (Hsat fk' (proj1 (list_elem_of_In _ _) Hfk')).
  apply fkSatisfied_spec in Hsat.
  assert (∃ p, p ∈ rows (fkParent fk') db ∧
               project (fkReferences fk') p = project (fkFields fk') r') as (p & Hp & Heq).
  { destruct Horigin as [->|(fk & Hfk & Hc & ->)].
    - by destruct Hsat.
    - destruct (project_setNull_cases (fkFields fk') (fkFields fk) r) as [|Hsame];
        [done|]. rewrite Hsame in Hnn |- *. by destruct Hsat. }
  exists p. split; [|done]. rewrite (Hframe _ Hq). unfold db1. rewrite rows_insert.
  destruct (decide (parent = fkParent fk')) as [Hpar|]; [|done].
  apply removeRows_elem. split; [by rewrite Hpar|]. intros Hv.
  rewrite <- Hpar in Href. rewrite <- Hn in Hr'.
  assert (refersTo fk' victims r' = true) as Hyes by (apply refersTo_spec; eauto).
  by rewrite (Hfree fk' r' Href Hr') in Hyes.
Qed.

End Integrity.

(** ** Deleting from the other tables *)

Lemma schema_restricts m :
  m ∈ models schema → modelName m ≠ "AuthUser" →
  restricts schema (modelName m) = true.
Proof.
  intros Hm Hne.
  assert (forallb (λ m, bool_decide (modelName m = "AuthUser")
                        || restricts schema (modelName m)) (models schema)
          = true) as Hall by (vm_compute; reflexivity).
  rewrite forallb_forall in Hall.
  specialize (Hall m (proj1 (list_elem_of_In _ _) Hm)).
  by rewrite (bool_decide_eq_false_2 _ Hne) in Hall.
Qed.

Lemma schema_leafChildren : leafChildren schema "AuthUser" = true.
Proof. vm_compute. reflexivity. Qed.



(** ** Referential integrity *)

Lemma delete_integrity n key db db' :
  Prisma.delete schema n key db = Ok db' →
  refIntegrity schema db → refIntegrity schema db'.
Proof.
  unfold Prisma.delete. intros (m & Hm & Hdel)%bind_Ok.
  destruct (findModel schema n) as [m'|] eqn:Hfind; [|done].
  injection Hm as ->. destruct (List.filter _ _) as [|v vs]; [done|].
  change (S (length (models schema))) with (S (S 18)) in Hdel.
  destruct (decide (n = "AuthUser")) as [->|Hne].
  - exact (deleteRows_leaves_integrity schema 18 "AuthUser" (v :: vs) db db'
             schema_leafChildren Hdel).
  - apply (deleteRows_restricted_integrity schema 19 n (v :: vs) db db'); [|done].
    apply findModel_Some in Hfind as [Hin <-]. by apply schema_restricts.
Qed.

Lemma run_integrity ops db db' :
  run schema ops db = Ok db' → refIntegrity schema db → refIntegrity schema db'.
Proof.
  revert db. induction ops as [|op ops IH]; intros db; cbn [run].
  - by intros [= <-].
  - intros (db1 & Hstep & Hrun)%bind_Ok Hri. apply (IH db1 Hrun).
    destruct op; cbn [step] in Hstep;
      eauto using create_integrity, delete_integrity.
Qed.

Lemma reachable_integrity db : reachable schema db → refIntegrity schema db.
Proof.
  intros [ops Hrun]. apply (run_integrity ops ∅ db Hrun). intros n m r _ Hr.
  rewrite rows_empty in Hr. by apply elem_of_nil in Hr.
Qed.

(** In a database that a history of creates and deletes has built, no row
    points to a row that is not there: every foreign key of a row either has a
    null column or is the key of a row of the table it points to. *)
Theorem schema_referential_integrity (db : Database) (n : string) (m : Model)
    (fk : ForeignKey) (r : Row) :
  reachable schema db →
  findModel schema n = Some m →
  fk ∈ foreignKeys m →
  r ∈ rows n db →
  VNull ∉ project (fkFields fk) r →
  ∃ p, p ∈ rows (fkParent fk) db ∧
       project (fkReferences fk) p = project (fkFields fk) r.
Proof.
  intros Hri%reachable_integrity Hm Hfk Hr Hnn.
  specialize (Hri n m r Hm Hr). rewrite forallb_forall in Hri.
  specialize (Hri fk (proj1 (list_elem_of_In _ _) Hfk)).
  by apply fkSatisfied_spec in Hri as [?|?].
Qed.

Lemma schema_referential_integrity_witness :
  ∃ p, p ∈ rows "Word" dbGlossed ∧ project ["id"] p = [VString "0100100101"].
Proof.
  apply (schema_referential_integrity dbGlossed "Gloss" Gloss
           (mkForeignKey "Gloss" ["wordId"] "Word" ["id"] Restrict)
           (row [("wordId", VString "0100100101"); ("languageId", VString "l1");
                 ("gloss", VString "en el principio");
                 ("state", VEnum "UNAPPROVED")])).
  - exact dbGlossed_reachable.
  - reflexivity.
  - change (foreignKeys Gloss)
      with [mkForeignKey "Gloss" ["wordId"] "Word" ["id"] Restrict;
            mkForeignKey "Gloss" ["languageId"] "Language" ["id"] Restrict].
    in_list.
  - by_compute.
  - by_compute.
Defined.

(** * What [create] refuses *)

Section Validation.
Context (s : Schema).

Lemma fieldValue_error env data f e :
  fieldValue s env data f = Err e → e = ValidationError.
Proof.
  unfold fieldValue. destruct (data !! fieldName f) as [v|].
  - destruct (wellTyped s f v); congruence.
  - destruct (fieldDefault f); [done|]. destruct (modifier f); congruence.
Qed.

Lemma complete_error env data fs e :
  complete s env data fs = Err e → e = ValidationError.
Proof.
  induction fs as [|f fs IH]; cbn [complete]; [done|].
  destruct (fieldValue s env data f) as [v|e'] eqn:Hv; cbn [mbind result_bind].
  - destruct (complete s env data fs); cbn [mbind result_bind]; [done|].
    intros [= <-]. by apply IH.
  - intros [= <-]. by eapply fieldValue_error.
Qed.

Lemma validate_error env m data e :
  validate s env m data = Err e → e = ValidationError.
Proof.
  unfold validate. destruct (knownColumns s m data); cbn.
  - apply complete_error.
  - congruence.
Qed.

Lemma create_invalid env n m data db e :
  findModel s n = Some m → validate s env m data = Err e →
  Prisma.create s env n data db = Err ValidationError.
Proof.
  intros Hm Hv. unfold Prisma.create. rewrite Hm.
  cbn [of_option mbind result_bind]. rewrite Hv. cbn [mbind result_bind].
  by rewrite (validate_error _ _ _ _ Hv).
Qed.

Lemma validate_field_error env m data f e :
  f ∈ scalarFields s m → fieldValue s env data f = Err e →
  ∃ e', validate s env m data = Err e'.
Proof.
  intros Hf He. destruct (validate s env m data) as [row|e'] eqn:Hv; [|eauto].
  unfold validate in Hv. apply bind_Ok in Hv as (_ & _ & Hc).
  destruct (complete_value s _ _ _ _ _ Hc Hf) as [w Hw]. congruence.
Qed.


End Validation.

(** The value of a column whose type is an enum has to be one of the values
    of the enum: [create] with any other value is a validation error,
    whatever the rest of the data and the database. *)
Theorem enum_values_enforced (env : DbEnv) (n : string) (m : Model) (f : Field)
    (e : string) (E : Enum) (c : string) (data : Row) (db : Database) :
  findModel schema n = Some m →
  f ∈ scalarFields schema m →
  fieldType f = TNamed e →
  findEnum schema e = Some E →
  data !! fieldName f = Some (VEnum c) →
  c ∉ enumValues E →
  Prisma.create schema env n data db = Err ValidationError.
Proof.
  intros Hm Hf Hty HE Hd Hc.
  destruct (validate_field_error schema env m data f ValidationError Hf)
    as [e' He']; [|by eapply create_invalid].
  unfold fieldValue, wellTyped. rewrite Hd, Hty, HE.
  rewrite (bool_decide_eq_false_2 _ Hc). by destruct (modifier f).
Qed.

Lemma enum_values_enforced_witness :
  Prisma.create schema env0 "LanguageMemberRole"
    (row [("languageId", VString "l1"); ("userId", VString "u1");
          ("role", VEnum "OWNER")]) dbMember
  = Err ValidationError.
Proof.
  apply (enum_values_enforced env0 "LanguageMemberRole" LanguageMemberRole
           (mkField "role" (TNamed "LanguageRole") Required [])
           "LanguageRole" LanguageRole "OWNER").
  - reflexivity.
  - change (scalarFields schema LanguageMemberRole)
      with [mkField "userId" TString Required [AtDbUuid];
            mkField "languageId" TString Required [AtDbUuid];
            mkField "role" (TNamed "LanguageRole") Required []].
    in_list.
  - reflexivity.
  - reflexivity.
  - by_compute.
  - by_compute.
Defined.

(** The data of a create is a row of column values.  A column that is
    required and has no default has to be among them: [create] with a row
    that lacks it is a validation error.  The relation fields of a model,
    through which a foreign key can be given in place of its column, are not
    columns and are not part of the row. *)
Theorem required_columns_enforced (env : DbEnv) (n : string) (m : Model)
    (name : string) (data : Row) (db : Database) :
  findModel schema n = Some m →
  mustBeGiven schema m name = true →
  data !! name = None →
  Prisma.create schema env n data db = Err ValidationError.
Proof.
  intros Hm Hg Hd. unfold mustBeGiven in Hg.
  apply existsb_exists in Hg as (f & Hf & Hg).
  apply andb_prop in Hg as [[Hn Hdef]%andb_prop Hreq].
  apply bool_decide_eq_true in Hn, Hdef. apply list_elem_of_In in Hf.
  destruct (validate_field_error schema env m data f ValidationError Hf)
    as [e' He']; [|by eapply create_invalid].
  unfold fieldValue. rewrite Hn, Hd, Hdef. by destruct (modifier f).
Qed.

Lemma required_columns_enforced_witness :
  Prisma.create schema env0 "Language" (row [("code", VString "de")]) dbPolyglot
  = Err ValidationError.
Proof.
  apply (required_columns_enforced env0 "Language" Language "name");
    [reflexivity | by_compute | by_compute].
Defined.



(** * Keys beside the primary keys *)

(** As [primary_key_enforced], for any key that a model declares unique. *)
Lemma unique_key_enforced (m : Model) (key : list string) (db : Database) :
  findModel schema (modelName m) = Some m →
  key ∈ uniqueKeys m →
  forallb (mustBeGiven schema m) key = true →
  reachable schema db →
  (∀ k, (length (List.filter (λ r, bool_decide (project key r = k))
                             (rows (modelName m) db)) ≤ 1)%nat) ∧
  (∀ env data r,
     r ∈ rows (modelName m) db →
     project key data = project key r →
     (∃ e, Prisma.create schema env (modelName m) data db = Err e) ∧
     (∀ row, validate schema env m data = Ok row →
             Prisma.create schema env (modelName m) data db
             = Err UniqueConstraintViolation)).
Proof.
  intros Hm Hkey Hgiven Hreach. split.
  - intros k. apply NoDup_fmap_filter.
    eapply reachable_keysUnique; eauto using schema_setNullSafe.
  - intros env data r Hr Heq. split.
    + eapply create_key_taken_rejected; eauto.
    + intros row Hrow. eapply create_key_taken; eauto.
      by rewrite (validate_key _ _ _ _ _ _ Hrow Hgiven).
Qed.

(** The keys that the schema declares with [@unique] and [@@unique] beside a
    primary key: the code of a language, the name of a book, and the book,
    chapter and number of a verse.  In a database that a history has built, at
    most one row has a given value of such a key, and a second row with the
    value of a row that is there is rejected, whatever its id. *)
Theorem natural_keys_unique (m : Model) (key : list string) (db : Database) :
  (m, key) ∈ [ (Language, ["code"]); (Book, ["name"]);
               (Verse, ["bookId"; "chapter"; "number"]) ] →
  reachable schema db →
  key ∈ uniqueKeys m ∧ key ≠ primaryKey m ∧
  (∀ k, (length (List.filter (λ r, bool_decide (project key r = k))
                             (rows (modelName m) db)) ≤ 1)%nat) ∧
  (∀ env data r,
     r ∈ rows (modelName m) db →
     project key data = project key r →
     (∃ e, Prisma.create schema env (modelName m) data db = Err e) ∧
     (∀ row, validate schema env m data = Ok row →
             Prisma.create schema env (modelName m) data db
             = Err UniqueConstraintViolation)).
Proof.
  intros Hm Hreach.
  assert (key ∈ uniqueKeys m ∧ key ≠ primaryKey m
          ∧ findModel schema (modelName m) = Some m
          ∧ forallb (mustBeGiven schema m) key = true)
    as (Hkey & Hne & Hfind & Hgiven).
  { repeat (apply elem_of_cons in Hm as [[= -> ->]|Hm]);
      [split_and!; [by_compute | by_compute | reflexivity | by_compute] ..
      | by apply elem_of_nil in Hm]. }
  destruct (unique_key_enforced m key db Hfind Hkey Hgiven Hreach). auto.
Qed.

Lemma dbUnglossed_reachable : reachable schema dbUnglossed.
Proof. apply build_reachable. vm_compute. exact I. Qed.

Lemma natural_keys_unique_witness :
  Prisma.create schema env0 "Language"
    (row [("id", VString "l2"); ("code", VString "es"); ("name", VString "Spanish")])
    dbUnglossed
  = Err UniqueConstraintViolation.
Proof.
  pose (data := row [("id", VString "l2"); ("code", VString "es");
                     ("name", VString "Spanish")]).
  pose (stored := row [("id", VString "l2"); ("code", VString "es");
                       ("name", VString "Spanish"); ("font", VString "Noto Sans");
                       ("textDirection", VEnum "ltr");
                       ("bibleTranslationIds", VStringList [])]).
  pose (there := row [("id", VString "l1"); ("code", VString "es");
                      ("name", VString "es"); ("font", VString "Noto Sans");
                      ("textDirection", VEnum "ltr");
                      ("bibleTranslationIds", VStringList [])]).
  destruct (natural_keys_unique Language ["code"] dbUnglossed ltac:(in_list)
              dbUnglossed_reachable) as (_ & _ & _ & Hdup).
  assert (there ∈ rows "Language" dbUnglossed) as Hthere by by_compute.
  destruct (Hdup env0 data there Hthere ltac:(by_compute)) as [_ Hrejected].
  apply (Hrejected stored). by_compute.
Defined.

(** ** The history of a gloss *)

(** A gloss history entry is keyed by word, language and timestamp, and the
    timestamp of an entry created without one is the instant of the create.
    Such a create, for a word and a language that exist, stores the entry
    unless the word and the language have an entry at that very instant.  So
    the changes of one gloss at different instants all stay, and a second
    change at the same instant is a unique-constraint violation. *)
Theorem gloss_history_per_instant (env : DbEnv) (db : Database)
    (w l source : string) :
  let entry := row [("wordId", VString w); ("languageId", VString l);
                    ("source", VEnum source)] in
  let stored := row [("wordId", VString w); ("languageId", VString l);
                     ("timestamp", VDateTime (clock env)); ("userId", VNull);
                     ("gloss", VNull); ("state", VNull);
                     ("source", VEnum source)] in
  source ∈ enumValues GlossSource →
  (∃ x, x ∈ rows "Word" db ∧ column x "id" = VString w) →
  (∃ x, x ∈ rows "Language" db ∧ column x "id" = VString l) →
  primaryKey GlossHistoryEntry = ["wordId"; "languageId"; "timestamp"] ∧
  Prisma.create schema env "GlossHistoryEntry" entry db
  = if bool_decide ([VString w; VString l; VDateTime (clock env)]
                    ∈ project ["wordId"; "languageId"; "timestamp"]
                        <$> rows "GlossHistoryEntry" db)
    then Err UniqueConstraintViolation
    else Ok (<["GlossHistoryEntry" := rows "GlossHistoryEntry" db ++ [stored]]> db).
Proof.
  intros entry stored Hsource (xw & Hxw & Hw) (xl & Hxl & Hl). split; [done|].
  assert (validate schema env GlossHistoryEntry entry = Ok stored) as Hvalid.
  { cbn in Hsource.
    repeat (apply elem_of_cons in Hsource as [->|Hsource]);
      [by_vm .. | by apply elem_of_nil in Hsource]. }
  assert (project ["wordId"; "languageId"; "timestamp"] stored
          = [VString w; VString l; VDateTime (clock env)]) as Hkey by by_vm.
  case_bool_decide as Htaken.
  - apply list_elem_of_fmap in Htaken as (x & Hx & Hin).
    apply (create_key_taken schema env "GlossHistoryEntry" entry db
             GlossHistoryEntry stored ["wordId"; "languageId"; "timestamp"] x);
      [done | done | left | done | by rewrite Hkey].
  - apply (create_Ok schema env "GlossHistoryEntry" entry db GlossHistoryEntry
             stored); [done|done| |].
    + apply violatesUnique_false_intro. intros k r Hk Hr Heq.
      change (uniqueKeys GlossHistoryEntry)
        with [["wordId"; "languageId"; "timestamp"]] in Hk.
      apply list_elem_of_singleton in Hk as ->. apply Htaken.
      rewrite <- Hkey, Heq. by apply list_elem_of_fmap_2.
    + change (foreignKeys GlossHistoryEntry)
        with [mkForeignKey "GlossHistoryEntry" ["wordId"] "Word" ["id"] Restrict;
              mkForeignKey "GlossHistoryEntry" ["languageId"] "Language" ["id"]
                Restrict;
              mkForeignKey "GlossHistoryEntry" ["userId"] "AuthUser" ["id"]
                SetNull].
      cbn [forallb]. repeat (apply andb_true_intro; split); [| | |done].
      * apply (fkSatisfied_intro db _ _ xw); [exact Hxw|].
        change (project _ xw) with [column xw "id"]. rewrite Hw. by_vm.
      * apply (fkSatisfied_intro db _ _ xl); [exact Hxl|].
        change (project _ xl) with [column xl "id"]. rewrite Hl. by_vm.
      * apply fkSatisfied_spec. left.
        replace (project _ stored) with [VNull] by by_vm. left.
Qed.

Lemma gloss_history_per_instant_witness :
  Prisma.create schema at5 "GlossHistoryEntry"
    (row [("wordId", VString "0100100101"); ("languageId", VString "l1");
          ("source", VEnum "IMPORT")]) dbChanged
  = Err UniqueConstraintViolation
  ∧ ∃ db',
      Prisma.create schema (mkDbEnv (generated env0) 6) "GlossHistoryEntry"
        (row [("wordId", VString "0100100101"); ("languageId", VString "l1");
              ("source", VEnum "IMPORT")]) dbChanged = Ok db' ∧
      project ["timestamp"; "source"] <$> rows "GlossHistoryEntry" db'
      = [ [VDateTime 5; VEnum "USER"]; [VDateTime 6; VEnum "IMPORT"] ].
Proof.
  assert (∃ x, x ∈ rows "Word" dbChanged ∧ column x "id" = VString "0100100101")
    as Hword.
  { exists (row [("id", VString "0100100101"); ("text", VString "bereshit");
                 ("verseId", VString "01001001"); ("formId", VString "H7225-1")]).
    split; by_compute. }
  assert (∃ x, x ∈ rows "Language" dbChanged ∧ column x "id" = VString "l1")
    as Hlanguage.
  { exists (row [("id", VString "l1"); ("code", VString "es");
                 ("name", VString "es"); ("font", VString "Noto Sans");
                 ("textDirection", VEnum "ltr");
                 ("bibleTranslationIds", VStringList [])]).
    split; by_compute. }
  split.
  - destruct (gloss_history_per_instant at5 dbChanged "0100100101" "l1" "IMPORT"
                ltac:(in_list) Hword Hlanguage) as [_ ->].
    by_compute.
  - destruct (gloss_history_per_instant (mkDbEnv (generated env0) 6) dbChanged
                "0100100101" "l1" "IMPORT" ltac:(in_list) Hword Hlanguage)
      as [_ ->].
    rewrite bool_decide_eq_false_2 by by_compute.
    eexists. split; [done|]. rewrite rows_insert_eq. by_compute.
Defined.

(** ** A new language *)

(** A language created from a code and a name alone gets an id from
    [generate_ulid()], the font [Noto Sans], the direction [ltr] and no Bible
    translations.  The create goes through when no language has that id or
    that code. *)
Theorem language_created_with_defaults (env : DbEnv) (db : Database)
    (code name : string) :
  let data := row [("code", VString code); ("name", VString name)] in
  let id := generated env "generate_ulid()" in
  let stored := row [("id", VString id); ("code", VString code);
                     ("name", VString name); ("font", VString "Noto Sans");
                     ("textDirection", VEnum "ltr");
                     ("bibleTranslationIds", VStringList [])] in
  [VString id] ∉ project ["id"] <$> rows "Language" db →
  [VString code] ∉ project ["code"] <$> rows "Language" db →
  validate schema env Language data = Ok stored ∧
  Prisma.create schema env "Language" data db
  = Ok (<["Language" := rows "Language" db ++ [stored]]> db).
Proof.
  intros data id stored Hid Hcode.
  assert (validate schema env Language data = Ok stored) as Hvalid by by_vm.
  split; [done|].
  apply (create_Ok schema env "Language" data db Language stored);
    [done | done | | done].
  apply violatesUnique_false_intro. intros k r Hk Hr Heq.
  change (uniqueKeys Language) with [["id"]; ["code"]] in Hk.
  apply elem_of_cons in Hk as [->|Hk%list_elem_of_singleton].
  - apply Hid. replace [VString id] with (project ["id"] stored) by by_vm.
    rewrite Heq. by apply list_elem_of_fmap_2.
  - subst k. apply Hcode.
    replace [VString code] with (project ["code"] stored) by by_vm.
    rewrite Heq. by apply list_elem_of_fmap_2.
Qed.

Lemma language_created_with_defaults_witness :
  ∃ db',
    Prisma.create schema env0 "Language"
      (row [("code", VString "fr"); ("name", VString "French")]) dbUnglossed
    = Ok db' ∧
    project ["code"; "font"; "textDirection"; "bibleTranslationIds"]
      <$> rows "Language" db'
    = [ [VString "es"; VString "Noto Sans"; VEnum "ltr"; VStringList []];
        [VString "fr"; VString "Noto Sans"; VEnum "ltr"; VStringList []] ].
Proof.
  destruct (language_created_with_defaults env0 dbUnglossed "fr" "French")
    as [_ Hcreate]; [by_compute | by_compute |].
  eexists. split; [exact Hcreate|]. rewrite rows_insert_eq. by_compute.
Defined.

(** * Creates and deletes together *)

Lemma findModel_elem s m :
  NoDup (modelName <$> models s) → m ∈ models s →
  findModel s (modelName m) = Some m.
Proof.
  unfold findModel. induction (models s) as [|m0 ms IH]; [by intros _ ?%elem_of_nil|].
  rewrite fmap_cons. intros [Hm0 Hnd]%NoDup_cons [->|Hin]%elem_of_cons; cbn.
  - by rewrite bool_decide_eq_true_2.
  - rewrite bool_decide_eq_false_2; [auto|]. intros Heq. apply Hm0.
    rewrite Heq. by apply list_elem_of_fmap_2.
Qed.

Lemma schema_wellFormed : wellFormed schema = true.
Proof. vm_compute. reflexivity. Qed.

Lemma referencing_key n m fk :
  findModel schema n = Some m → fk ∈ referencing schema n →
  fkReferences fk ∈ uniqueKeys m ∧
  ∃ child, findModel schema (fkChild fk) = Some child ∧ fk ∈ foreignKeys child.
Proof.
  intros Hm Hfk. pose proof schema_wellFormed as Hwf. unfold wellFormed in Hwf.
  apply andb_prop in Hwf as [Hnd%bool_decide_eq_true Hall].
  unfold referencing in Hfk.
  apply list_elem_of_In, filter_In in Hfk as [Hfk Hp%bool_decide_eq_true].
  apply in_concat in Hfk as (fks & Hfks & Hfk).
  apply list_elem_of_In, list_elem_of_fmap in Hfks as (child & -> & Hchild).
  rewrite forallb_forall in Hall.
  specialize (Hall child (proj1 (list_elem_of_In _ _) Hchild)).
  rewrite forallb_forall in Hall. specialize (Hall fk Hfk).
  rewrite Hp, Hm in Hall. apply bool_decide_eq_true in Hall.
  apply list_elem_of_In in Hfk. split; [done|]. exists child.
  rewrite (foreignKeys_child child fk Hfk). split; [|done].
  by apply findModel_elem.
Qed.

Lemma filter_none {A} (f : A → bool) l :
  (∀ a, a ∈ l → f a = false) → List.filter f l = [].
Proof.
  induction l as [|a l IH]; intros H; cbn; [done|].
  rewrite (H a) by left. apply IH. intros ??. apply H. by right.
Qed.

Lemma filter_all {A} (f : A → bool) l :
  (∀ a, a ∈ l → f a = true) → List.filter f l = l.
Proof.
  induction l as [|a l IH]; intros H; cbn; [done|].
  rewrite (H a) by left. f_equal. apply IH. intros ??. apply H. by right.
Qed.

(** Users apart, a row that has just been created can be deleted by its
    primary key, and the delete undoes the create: every table has the rows it
    had before.  This holds in any database that a history has built, where no
    row can be waiting for the new row to point to. *)
Theorem create_delete_round_trip (env : DbEnv) (n : string) (m : Model)
    (data row : Row) (db db1 : Database) :
  reachable schema db →
  findModel schema n = Some m →
  n ≠ "AuthUser" →
  validate schema env m data = Ok row →
  Prisma.create schema env n data db = Ok db1 →
  ∃ db2,
    Prisma.delete schema n (project (primaryKey m) row) db1 = Ok db2 ∧
    ∀ n', rows n' db2 = rows n' db.
Proof.
  intros Hreach Hm Hne Hrow Hcreate.
  apply create_inv in Hcreate as (m' & row' & Hm' & Hrow' & Hfree & _ & ->).
  assert (m' = m) as -> by congruence. assert (row' = row) as -> by congruence.
  pose proof (reachable_integrity db Hreach) as Hri.
  assert (restricts schema n = true) as Hrestricts.
  { destruct (findModel_Some _ _ _ Hm) as [Hin <-]. by apply schema_restricts. }
  assert (∀ key r, key ∈ uniqueKeys m → r ∈ rows n db →
            project key r ≠ project key row) as Hnew.
  { intros key r Hkey Hr Heq.
    by rewrite (violatesUnique_true m row _ key r) in Hfree. }
  set (db1 := <[n := rows n db ++ [row]]> db).
  (* the new row is the only one with its key *)
  assert (List.filter (λ r, bool_decide (project (primaryKey m) r
                                        = project (primaryKey m) row))
                      (rows n db1) = [row]) as Hvictims.
  { unfold db1. rewrite rows_insert_eq, List.filter_app, filter_none.
    - cbn. by rewrite bool_decide_eq_true_2.
    - intros r Hr. apply bool_decide_eq_false. apply Hnew; [left|done]. }
  (* and no row points to it *)
  assert (existsb (λ fk, existsb (refersTo fk [row]) (rows (fkChild fk) db1))
                  (referencing schema n) = false) as Hnone.
  { apply not_true_is_false.
    intros (fk & Hfk%list_elem_of_In & (r & Hr%list_elem_of_In & Hrefers)%existsb_exists)
      %existsb_exists.
    destruct (restricts_spec schema n fk Hrestricts Hfk) as [_ Hchild].
    unfold db1 in Hr. rewrite rows_insert_ne in Hr by done.
    destruct (referencing_key n m fk Hm Hfk) as (Hkey & child & Hc & Hfkc).
    apply refersTo_spec in Hrefers as (Hnn & v & ->%list_elem_of_singleton & Heq).
    pose proof (Hri _ child r Hc Hr) as Hsat. rewrite forallb_forall in Hsat.
    specialize (Hsat fk (proj1 (list_elem_of_In _ _) Hfkc)).
    apply fkSatisfied_spec in Hsat as [?|(p & Hp & Hpeq)]; [done|].
    assert (fkParent fk = n) as Hparent.
    { unfold referencing in Hfk.
      apply list_elem_of_In, filter_In in Hfk as [_ Hfk].
      by apply bool_decide_eq_true in Hfk. }
    rewrite Hparent in Hp. apply (Hnew _ p Hkey Hp). congruence. }
  unfold Prisma.delete. rewrite Hm. cbn [of_option mbind result_bind].
  rewrite Hvictims, (deleteRows_restricted schema _ n [row] db1 Hrestricts), Hnone.
  eexists. split; [done|]. intros n'. unfold db1.
  destruct (decide (n = n')) as [<-|]; [|by rewrite !rows_insert_ne].
  rewrite !rows_insert_eq. unfold removeRows. rewrite List.filter_app, filter_all.
  - cbn. rewrite bool_decide_eq_true_2 by left. cbn. apply app_nil_r.
  - intros r Hr. apply negb_true_iff, bool_decide_eq_false.
    intros ->%list_elem_of_singleton. apply (Hnew (primaryKey m) row); [left|done..].
Qed.

Lemma create_delete_round_trip_witness :
  ∃ db2,
    Prisma.delete schema "Language" [VString "l2"]
      (<["Language" :=
           rows "Language" dbUnglossed
           ++ [row [("id", VString "l2"); ("code", VString "fr");
                    ("name", VString "French"); ("font", VString "Noto Sans");
                    ("textDirection", VEnum "ltr");
                    ("bibleTranslationIds", VStringList [])]]]> dbUnglossed)
    = Ok db2 ∧
    ∀ n', rows n' db2 = rows n' dbUnglossed.
Proof.
  pose (data := row [("id", VString "l2"); ("code", VString "fr");
                     ("name", VString "French")]).
  pose (stored := row [("id", VString "l2"); ("code", VString "fr");
                       ("name", VString "French"); ("font", VString "Noto Sans");
                       ("textDirection", VEnum "ltr");
                       ("bibleTranslationIds", VStringList [])]).
  apply (create_delete_round_trip env0 "Language" Language data stored dbUnglossed
           (<["Language" := rows "Language" dbUnglossed ++ [stored]]> dbUnglossed)
           dbUnglossed_reachable eq_refl).
  - done.
  - by_compute.
  - by_compute.
Defined.

(** A delete that went through has taken every row with the key: the same
    delete again finds no record.  This holds for every schema whose
    [SetNull] foreign keys stay clear of the key columns, as those of the
    repository do. *)
Theorem delete_twice (s : Schema) (n : string) (key : list Value)
    (db db' : Database) :
  setNullSafe s = true →
  Prisma.delete s n key db = Ok db' →
  Prisma.delete s n key db' = Err RecordNotFound.
Proof.
  intros Hsafe. unfold Prisma.delete.
  destruct (findModel s n) as [m|] eqn:Hm; [|done].
  cbn [of_option mbind result_bind].
  set (hasKey := λ r : Row, bool_decide (project (primaryKey m) r = key)).
  destruct (List.filter hasKey (rows n db)) as [|v vs] eqn:Hvictims; [discriminate|].
  rewrite <- Hvictims. cbn [deleteRows]. intros Hdel.
  set (db1 := <[n := removeRows (List.filter hasKey (rows n db)) (rows n db)]> db)
    in Hdel.
  assert (shrinks s db1 db') as Hshrinks.
  { eapply (foldl_shrinks s); [|exact Hdel].
    intros fk d1 d2 Hfk Hd.
    exact (onDelete_shrinks s Hsafe _ _ n d1 fk d2
             (λ c d x y, deleteRows_shrinks s Hsafe _ c d x y) Hfk Hd). }
  specialize (Hshrinks n m (primaryKey m) Hm ltac:(left)).
  rewrite filter_none; [done|]. intros r Hr. apply bool_decide_eq_false. intros Hkey.
  assert (project (primaryKey m) r ∈ project (primaryKey m) <$> rows n db1) as Hin.
  { eapply elem_of_sublist; [|exact Hshrinks]. by apply list_elem_of_fmap_2. }
  apply list_elem_of_fmap in Hin as (r1 & Hr1 & Hin). unfold db1 in Hin.
  rewrite rows_insert_eq in Hin. unfold removeRows in Hin.
  apply list_elem_of_In, filter_In in Hin as [Hin Hgone].
  apply negb_true_iff, bool_decide_eq_false in Hgone. apply Hgone.
  apply list_elem_of_In, filter_In. split; [done|].
  apply bool_decide_eq_true. congruence.
Qed.

Lemma delete_twice_witness :
  Prisma.delete schema "AuthUser" [VString "u1"]
    (<["AuthUser" := []]>
       (<["AuthSession" := []]>
          (<["LanguageImportJob" :=
               nullify (mkForeignKey "LanguageImportJob" ["userId"] "AuthUser" ["id"]
                          SetNull)
                       (rows "AuthUser" dbImporter)
                 <$> rows "LanguageImportJob" dbImporter]> dbImporter)))
  = Err RecordNotFound.
Proof.
  apply (delete_twice schema "AuthUser" [VString "u1"] dbImporter);
    [reflexivity | by_compute].
Defined.

(** * The api client *)

Import Js Http.

(** ** C4: login *)

(** C4.  [Auth.login] with an email and a password issues one request and no
    other: a POST to [/api/auth/login], without query parameters, whose body is
    the object with the two fields [email] and [password], whatever else the
    argument carries.  The requests made before stay as they were, the page is
    not touched, and the call settles as that one request does. *)
Theorem login_posts_once (net : Network) (email password : string)
    (extra : Obj) (w : World) :
  let request := ("email", JString email) :: ("password", JString password) :: extra in
  let posted :=
    mkRequest POST "/api/auth/login" None
      (Some (JObject [("email", JString email); ("password", JString password)])) in
  let after := (Auth.login (httpClient net) request w).2 in
  (Auth.login (httpClient net) request w).1 = net (sent w) posted ∧
  sent after = sent w ++ [posted] ∧
  length (sent after) = S (length (sent w)) ∧
  drop (length (sent w)) (sent after) = [posted] ∧
  ui after = ui w.
Proof.
  intros request posted after.
  assert (sent after = sent w ++ [posted]) as Hsent by reflexivity.
  split_and!; try done.
  - rewrite Hsent, length_app. cbn. lia.
  - by rewrite Hsent, drop_app_length.
Qed.

(** Each method of [Auth] issues exactly one request: [session] a GET to
    [/api/auth/session], [login] a POST to [/api/auth/login], [logout] a POST
    to [/api/auth/logout], [getInvite] a GET to [/api/auth/invite] with the
    token as query, [acceptInvite] a POST to [/api/auth/invite]. *)
Theorem auth_one_request_each (net : Network) (request : Obj) (token : string) :
  let client := httpClient net in
  issuesOnly (Auth.session client) (mkRequest GET "/api/auth/session" None None) ∧
  issuesOnly (Auth.login client request)
    (mkRequest POST "/api/auth/login" None
       (Some (JObject [("email", getProp "email" request);
                       ("password", getProp "password" request)]))) ∧
  issuesOnly (Auth.logout client) (mkRequest POST "/api/auth/logout" None None) ∧
  issuesOnly (Auth.getInvite client token)
    (mkRequest GET "/api/auth/invite" (Some [("token", JString token)]) None) ∧
  issuesOnly (Auth.acceptInvite client request)
    (mkRequest POST "/api/auth/invite" None
       (Some (JObject [("token", getProp "token" request);
                       ("name", getProp "name" request);
                       ("password", getProp "password" request)]))).
Proof. intros client. split_and!; by intros w. Qed.

(** ** C5: the bodies of the two invitations *)

(** C5, as the claim has it, fails for [inviteMember]: an object that has the
    required fields and one more is sent with all three. *)
Lemma inviteMember_sends_extra_fields :
  ¬ Languages.sendsExactly ["email"; "roles"].
Proof.
  intros H.
  destruct (H (λ _ _, Fulfilled JNull) "es"
              [("email", JString "a@b.c"); ("roles", JArray [JString "VIEWER"]);
               ("isAdmin", JBool true)]
              (mkWorld [] []))
    as (body & Hbody & Hkeys).
  { by_compute. }
  injection Hbody as <-.
  assert ("isAdmin" ∈ ["email"; "roles"]) as Hin by (apply Hkeys; cbn; in_list).
  by apply (bool_decide_pack _) in Hin.
Qed.

(** Whatever fields the type requires, an object of the type with one more
    field is sent whole. *)
Lemma inviteMember_sends_any_extra_field (required : list string) :
  ¬ Languages.sendsExactly required.
Proof.
  intros H. pose (k := fresh required).
  destruct (H (λ _ _, Fulfilled JNull) "es"
              ((k, JNull) :: ((λ f, (f, JNull)) <$> required)) (mkWorld [] []))
    as (body & Hbody & Hkeys).
  { intros f Hf. unfold keys. rewrite fmap_cons, <- list_fmap_compose.
    right. by rewrite list_fmap_id. }
  injection Hbody as <-.
  apply (infinite_is_fresh required), Hkeys. left.
Qed.

(** C5, amended.  [acceptInvite] sends a body with exactly the fields [token],
    [name] and [password], read from its argument, whatever else the argument
    carries.  [inviteMember] sends its argument itself as the body: every
    field that the caller's object carries, and no other. *)
Theorem invite_bodies (net : Network) (code : string) (request : Obj) (w : World) :
  (∃ body,
     sentBody (Auth.acceptInvite (httpClient net) request) w = Some (JObject body) ∧
     keys body = ["token"; "name"; "password"] ∧
     ∀ k, k ∈ keys body → getProp k body = getProp k request) ∧
  issuesOnly (Auth.acceptInvite (httpClient net) request)
    (mkRequest POST "/api/auth/invite" None
       (Some (JObject [("token", getProp "token" request);
                       ("name", getProp "name" request);
                       ("password", getProp "password" request)]))) ∧
  sentBody (Languages.inviteMember (httpClient net) code (JObject request)) w
  = Some (JObject request) ∧
  issuesOnly (Languages.inviteMember (httpClient net) code (JObject request))
    (mkRequest POST ("/api/languages/" +:+ code +:+ "/members") None
       (Some (JObject request))).
Proof.
  split_and!.
  - eexists. split_and!.
    + unfold sentBody, Auth.acceptInvite. cbn. by rewrite last_snoc.
    + done.
    + intros k Hk. cbn in Hk.
      repeat (apply elem_of_cons in Hk as [->|Hk]);
        [done .. | by apply elem_of_nil in Hk].
  - by intros w'.
  - unfold sentBody, Languages.inviteMember. cbn. by rewrite last_snoc.
  - by intros w'.
Qed.

(** ** C8: the languages client *)

Lemma bind_issuesOnly {A B} (p : Promise A) (b : B) (r : Request) :
  issuesOnly p r → issuesOnly (_ ← p; mret b) r.
Proof.
  intros H w. specialize (H w). unfold mbind, promise_bind, mret, promise_ret.
  destruct (p w) as [[a|e] w']; exact H.
Qed.

(** C8.  Each method of [Languages] issues exactly one request, with the verb
    and to the endpoint of its name, without query parameters, and changes
    nothing else. *)
Theorem languages_one_request_each (net : Network) (code userId : string)
    (language body request : Json) (roles : list Json) :
  let client := httpClient net in
  let languages := "/api/languages" in
  let language_ := "/api/languages/" +:+ code in
  let import := "/api/languages/" +:+ code +:+ "/import" in
  let members := "/api/languages/" +:+ code +:+ "/members" in
  let member := "/api/languages/" +:+ code +:+ "/members/" +:+ userId in
  issuesOnly (Languages.findAll client) (mkRequest GET languages None None) ∧
  issuesOnly (Languages.create client language)
    (mkRequest POST languages None (Some language)) ∧
  issuesOnly (Languages.findByCode client code) (mkRequest GET language_ None None) ∧
  issuesOnly (Languages.update client code language)
    (mkRequest PATCH language_ None (Some language)) ∧
  issuesOnly (Languages.startImport client code body)
    (mkRequest POST import None (Some body)) ∧
  issuesOnly (Languages.importStatus client code) (mkRequest GET import None None) ∧
  issuesOnly (Languages.findMembers client code) (mkRequest GET members None None) ∧
  issuesOnly (Languages.inviteMember client code request)
    (mkRequest POST members None (Some request)) ∧
  issuesOnly (Languages.updateMember client code userId roles)
    (mkRequest PATCH member None (Some (JObject [("roles", JArray roles)]))) ∧
  issuesOnly (Languages.removeMember client code userId)
    (mkRequest DELETE member None None).
Proof.
  intros. split_and!;
    first [ by intros w | apply bind_issuesOnly; by intros w ].
Qed.

(** ** C9: the status of an import *)

(** C9.  [importStatus] issues a GET to [/api/languages/:code/import] and
    fulfils with [undefined] whatever body the request is answered with; it
    rejects as the request does.  The answer itself does not reach the
    caller. *)
Theorem importStatus_discards_body (net : Network) (code : string) (w : World) :
  let asked := mkRequest GET ("/api/languages/" +:+ code +:+ "/import") None None in
  Languages.importStatus (httpClient net) code w
  = (match net (sent w) asked with
     | Fulfilled _ => Fulfilled JUndefined
     | Rejected e => Rejected e
     end,
     mkWorld (sent w ++ [asked]) (ui w)).
Proof.
  intros asked. unfold Languages.importStatus, mbind, promise_bind. cbn.
  fold asked. by destruct (net (sent w) asked).
Qed.

(** * The login view *)

Lemma is401_spec v : is401 v = true ↔ v = JNumber 401.
Proof.
  destruct v; cbn; try (split; [discriminate|congruence]).
  rewrite bool_decide_eq_true. split; congruence.
Qed.

(** C3.  When the login call of the submit handler throws, the handler shows
    one flash error and does nothing else: the translated
    [users:errors.invalid_auth] when the error is an [ApiClientError] with
    status 401, and the string form of the error in every other case. *)
Theorem onSubmit_reports_login_error (apiClient : ApiClient) (t : string → string)
    (data : LoginView.FormData) (w w' : World) (error : Thrown) :
  Auth.login apiClient
    [("email", JString (LoginView.email data));
     ("password", JString (LoginView.password data))] w
  = (Rejected error, w') →
  ∃ message,
    LoginView.onSubmit apiClient t data w
    = (Fulfilled (), mkWorld (sent w') (ui w' ++ [FlashError message])) ∧
    (instanceOfApiClientError error = true ∧ status error = JNumber 401 →
     message = t "users:errors.invalid_auth") ∧
    (¬ (instanceOfApiClientError error = true ∧ status error = JNumber 401) →
     message = toString error).
Proof.
  intros Hlogin.
  exists (if instanceOfApiClientError error && is401 (status error)
          then t "users:errors.invalid_auth" else toString error).
  split_and!.
  - unfold LoginView.onSubmit, tryCatch, mbind, promise_bind. rewrite Hlogin.
    by destruct (instanceOfApiClientError error && is401 (status error)).
  - intros [-> ->]. done.
  - intros Hnot.
    destruct (instanceOfApiClientError error && is401 (status error)) eqn:H;
      [|done].
    apply andb_prop in H as [? ?%is401_spec]. tauto.
Qed.

Lemma onSubmit_reports_login_error_witness :
  let unauthorized := mkThrown true (JNumber 401) "ApiClientError: Unauthorized" in
  let down := mkThrown false JUndefined "TypeError: Failed to fetch" in
  let posted :=
    mkRequest POST "/api/auth/login" None
      (Some (JObject [("email", JString "a@b.c"); ("password", JString "pw")])) in
  let message := λ k : string, "<" +:+ k +:+ ">" in
  LoginView.onSubmit (httpClient (λ _ _, Rejected unauthorized)) message
    (LoginView.mkFormData "a@b.c" "pw") (mkWorld [] [])
  = (Fulfilled (), mkWorld [posted] [FlashError "<users:errors.invalid_auth>"])
  ∧
  LoginView.onSubmit (httpClient (λ _ _, Rejected down)) message
    (LoginView.mkFormData "a@b.c" "pw") (mkWorld [] [])
  = (Fulfilled (), mkWorld [posted] [FlashError "TypeError: Failed to fetch"]).
Proof.
  intros unauthorized down posted message. split.
  - destruct (onSubmit_reports_login_error
                (httpClient (λ _ _, Rejected unauthorized)) message
                (LoginView.mkFormData "a@b.c" "pw") (mkWorld [] [])
                (mkWorld [posted] []) unauthorized eq_refl)
      as (m & -> & Hm & _).
    by rewrite Hm.
  - destruct (onSubmit_reports_login_error
                (httpClient (λ _ _, Rejected down)) message
                (LoginView.mkFormData "a@b.c" "pw") (mkWorld [] [])
                (mkWorld [posted] []) down eq_refl)
      as (m & -> & _ & Hm).
    rewrite Hm; [done|]. by intros [[=] _].
Defined.

(** When the login call is fulfilled, the handler refreshes the auth state,
    navigates to [/] and shows no error. *)
Theorem onSubmit_success (apiClient : ApiClient) (t : string → string)
    (data : LoginView.FormData) (w w' : World) (answer : Json) :
  Auth.login apiClient
    [("email", JString (LoginView.email data));
     ("password", JString (LoginView.password data))] w
  = (Fulfilled answer, w') →
  LoginView.onSubmit apiClient t data w
  = (Fulfilled (), mkWorld (sent w') (ui w' ++ [RefreshAuth; Navigate "/"])).
Proof.
  intros Hlogin.
  unfold LoginView.onSubmit, tryCatch, mbind, promise_bind. rewrite Hlogin.
  unfold LoginView.refreshAuth, LoginView.navigate, effect. cbn.
  by rewrite <- app_assoc.
Qed.

Lemma onSubmit_success_witness :
  LoginView.onSubmit (httpClient (λ _ _, Fulfilled JNull)) (λ k, k)
    (LoginView.mkFormData "a@b.c" "pw") (mkWorld [] [])
  = (Fulfilled (),
     mkWorld
       [mkRequest POST "/api/auth/login" None
          (Some (JObject [("email", JString "a@b.c"); ("password", JString "pw")]))]
       [RefreshAuth; Navigate "/"]).
Proof.
  exact (onSubmit_success (httpClient (λ _ _, Fulfilled JNull)) (λ k, k)
           (LoginView.mkFormData "a@b.c" "pw") (mkWorld [] []) _ JNull eq_refl).
Defined.

(** ** What the methods settle to *)

(** The methods that return the client's promise settle exactly as their
    request does: fulfilled with the answer, or rejected with the error of the
    request.  That holds of all five methods of [Auth] and of [findAll],
    [findByCode], [findMembers], [inviteMember], [updateMember] and
    [removeMember].  The [async] methods [create], [update] and [startImport]
    await the request and return nothing: they fulfil with [undefined]
    whatever the answer, and reject with the error of the request. *)
Theorem client_results (net : Network) (code userId token : string)
    (credentials : Obj) (language body request : Json) (roles : list Json)
    (w : World) :
  let client := httpClient net in
  let answer m path query payload := net (sent w) (mkRequest m path query payload) in
  let language_ := "/api/languages/" +:+ code in
  let members := "/api/languages/" +:+ code +:+ "/members" in
  let member := "/api/languages/" +:+ code +:+ "/members/" +:+ userId in
  (Auth.session client w).1 = answer GET "/api/auth/session" None None ∧
  (Auth.login client credentials w).1
  = answer POST "/api/auth/login" None
      (Some (JObject [("email", getProp "email" credentials);
                      ("password", getProp "password" credentials)])) ∧
  (Auth.logout client w).1 = answer POST "/api/auth/logout" None None ∧
  (Auth.getInvite client token w).1
  = answer GET "/api/auth/invite" (Some [("token", JString token)]) None ∧
  (Auth.acceptInvite client credentials w).1
  = answer POST "/api/auth/invite" None
      (Some (JObject [("token", getProp "token" credentials);
                      ("name", getProp "name" credentials);
                      ("password", getProp "password" credentials)])) ∧
  (Languages.findAll client w).1 = answer GET "/api/languages" None None ∧
  (Languages.findByCode client code w).1 = answer GET language_ None None ∧
  (Languages.findMembers client code w).1 = answer GET members None None ∧
  (Languages.inviteMember client code request w).1
  = answer POST members None (Some request) ∧
  (Languages.updateMember client code userId roles w).1
  = answer PATCH member None (Some (JObject [("roles", JArray roles)])) ∧
  (Languages.removeMember client code userId w).1 = answer DELETE member None None ∧
  (Languages.create client language w).1
  = discarded (answer POST "/api/languages" None (Some language)) ∧
  (Languages.update client code language w).1
  = discarded (answer PATCH language_ None (Some language)) ∧
  (Languages.startImport client code body w).1
  = discarded (answer POST ("/api/languages/" +:+ code +:+ "/import") None
                 (Some body)).
Proof.
  intros client answer language_ members member.
  split_and!; try reflexivity.
  - unfold Languages.create, mbind, promise_bind, answer. cbn.
    by destruct (net _ _).
  - unfold Languages.update, mbind, promise_bind, answer. cbn.
    by destruct (net _ _).
  - unfold Languages.startImport, mbind, promise_bind, answer. cbn.
    by destruct (net _ _).
Qed.

(** ** Paths *)

Lemma append_assoc (a b c : string) : (a +:+ b) +:+ c = a +:+ b +:+ c.
Proof.
  induction a as [|x a IH]; [done|].
  change (String x ((a +:+ b) +:+ c) = String x (a +:+ b +:+ c)). by f_equal.
Qed.

(** The code of a language and the id of a user go into the path as they are,
    without escaping, so a slash in one of them moves the boundary between the
    segments: [findByCode] with the code [c/members] is the call
    [findMembers c], and a user id that holds [/members/] can be split
    between the code and the id. *)
Theorem paths_not_escaped (client : ApiClient) (code u1 u2 : string) :
  Languages.findByCode client (code +:+ "/members") = Languages.findMembers client code
  ∧ Languages.removeMember client (code +:+ "/members/" +:+ u1) u2
    = Languages.removeMember client code (u1 +:+ "/members/" +:+ u2).
Proof.
  split; [reflexivity|]. unfold Languages.removeMember. do 2 f_equal.
  by rewrite !append_assoc.
Qed.

(** ** The submit handler, in full *)

(** Over the HTTP client, the submit handler makes exactly one request, the
    login POST, and never a second one; it always fulfils, never rejects; and
    it does one of two things to the page: when the request is fulfilled it
    refreshes the auth state and navigates to [/], when it is rejected it
    shows one flash error and neither refreshes nor navigates. *)
Theorem onSubmit_outcome (net : Network) (t : string → string)
    (data : LoginView.FormData) (w : World) :
  let posted :=
    mkRequest POST "/api/auth/login" None
      (Some (JObject [("email", JString (LoginView.email data));
                      ("password", JString (LoginView.password data))])) in
  LoginView.onSubmit (httpClient net) t data w
  = (Fulfilled (),
     mkWorld (sent w ++ [posted])
       (ui w ++ match net (sent w) posted with
                | Fulfilled _ => [RefreshAuth; Navigate "/"]
                | Rejected error =>
                    [FlashError
                       (if instanceOfApiClientError error && is401 (status error)
                        then t "users:errors.invalid_auth"
                        else toString error)]
                end)).
Proof.
  intros posted.
  assert (Auth.login (httpClient net)
            [("email", JString (LoginView.email data));
             ("password", JString (LoginView.password data))] w
          = (net (sent w) posted, mkWorld (sent w ++ [posted]) (ui w)))
    as Hlogin by reflexivity.
  unfold LoginView.onSubmit, tryCatch, mbind, promise_bind. rewrite Hlogin.
  destruct (net (sent w) posted) as [answer|error].
  - unfold LoginView.refreshAuth, LoginView.navigate, effect. cbn.
    by rewrite <- app_assoc.
  - by destruct (instanceOfApiClientError error && is401 (status error)).
Qed.
